(** * Password validation engine of [app.py]

    A shallow embedding of [calculate_entropy] and [validate_password]
    together with the properties of the rule battery, the score
    aggregation and the verdict.

    Conventions of the embedding.
    - A Python [str] is a list of code points, a code point is a [Z]
      ([ord]).  String constants of the source are written with [lit].
    - The running [score] is a Python [int], here a [Z].
    - The error and warning messages are constructors of [error] and
      [warning]; the message texts are given next to the constructors.
    - [math.log2] yields a float.  The entropy is kept as the pair
      (length, charset size) that stands for the real number
      length * log2(charset size) ([bits_value]), and the threshold tests
      of rule 15 are decided on that exact value through
      n * log2 c < t  iff  c ^ n < 2 ^ t  ([pow_lt_log2]).  Rounding is
      not modelled.  The charset size is one of 10, 26, 32, 36, 42, 52,
      58, 62, 68, 84, 94; for 32 the float result is exact, for the others
      the exact value stays further than 0.09 from 50, 60 and 80 at every
      length, far more than the rounding of a double.
    - [str.lower] depends on the Unicode case tables of the interpreter;
      it is a parameter of the development ([lower]).  The tables behind
      [\d], [\s] and [str.isdigit] are those of Unicode 14.0. *)

From Stdlib Require Import Reals Lra Ascii String ZArith Bool List Lia.
From Stdlib Require Import Sorting.Permutation Sorting.Sorted.
Import ListNotations.
Local Open Scope Z_scope.

Set Implicit Arguments.

(** ** Strings as lists of code points *)

Definition char := Z.
Definition str := list char.

Definition ord (a : ascii) : char := Z.of_N (N_of_ascii a).

(** A string constant of the source. *)
Definition lit (x : string) : str := map ord (list_ascii_of_string x).

(** The empty string. *)
Definition empty : str := [].

(** [len(s)] *)
Definition len (s : str) : Z := Z.of_nat (length s).

Fixpoint str_eqb (a b : str) : bool :=
  match a, b with
  | [], [] => true
  | x :: a', y :: b' => (x =? y) && str_eqb a' b'
  | _, _ => false
  end.

(** [x in S] for a set (or list) of strings. *)
Definition str_in (x : str) (S : list str) : bool := existsb (str_eqb x) S.

Fixpoint startswith (pre s : str) : bool :=
  match pre, s with
  | [], _ => true
  | x :: pre', y :: s' => (x =? y) && startswith pre' s'
  | _ :: _, [] => false
  end.

(** [needle in hay] for two strings: substring search. *)
Fixpoint contains (needle hay : str) : bool :=
  startswith needle hay ||
  match hay with
  | [] => false
  | _ :: hay' => contains needle hay'
  end.

(** What [needle in hay] means. *)
Definition substring (needle hay : str) : Prop :=
  exists pre post, hay = pre ++ needle ++ post.

(** ** Exceptions *)

Inductive exn := IndexError.

Inductive result (A : Type) :=
| Ok (a : A)
| Raise (e : exn).
Arguments Raise {A} e.

Definition bind {A B} (r : result A) (k : A -> result B) : result B :=
  match r with
  | Ok a => k a
  | Raise e => Raise e
  end.

Notation "x <- r ;; k" := (bind r (fun x => k))
  (at level 100, r at next level, right associativity).

(** [s[i]], negative indices counting from the end. *)
Definition getitem (s : str) (i : Z) : result char :=
  let j := if i <? 0 then i + len s else i in
  if (j <? 0) || (len s <=? j) then Raise IndexError
  else Ok (nth (Z.to_nat j) s 0).

(** ** Character classes *)

Definition in_ranges (tbl : list (Z * Z)) (c : char) : bool :=
  existsb (fun r => (fst r <=? c) && (c <=? snd r)) tbl.

(** [[a-z]] and [[A-Z]] *)
Definition re_lower (c : char) : bool := (97 <=? c) && (c <=? 122).
Definition re_upper (c : char) : bool := (65 <=? c) && (c <=? 90).

(** [\d] on a [str] pattern: the decimal digits of Unicode (category Nd). *)
Definition Nd_table : list (Z * Z) :=
  [(48, 57); (1632, 1641); (1776, 1785); (1984, 1993); (2406, 2415);
   (2534, 2543); (2662, 2671); (2790, 2799); (2918, 2927); (3046, 3055);
   (3174, 3183); (3302, 3311); (3430, 3439); (3558, 3567); (3664, 3673);
   (3792, 3801); (3872, 3881); (4160, 4169); (4240, 4249); (6112, 6121);
   (6160, 6169); (6470, 6479); (6608, 6617); (6784, 6793); (6800, 6809);
   (6992, 7001); (7088, 7097); (7232, 7241); (7248, 7257); (42528, 42537);
   (43216, 43225); (43264, 43273); (43472, 43481); (43504, 43513);
   (43600, 43609); (44016, 44025); (65296, 65305); (66720, 66729);
   (68912, 68921); (69734, 69743); (69872, 69881); (69942, 69951);
   (70096, 70105); (70384, 70393); (70736, 70745); (70864, 70873);
   (71248, 71257); (71360, 71369); (71472, 71481); (71904, 71913);
   (72016, 72025); (72784, 72793); (73040, 73049); (73120, 73129);
   (92768, 92777); (92864, 92873); (93008, 93017); (120782, 120831);
   (123200, 123209); (123632, 123641); (125264, 125273); (130032, 130041)].

Definition re_digit (c : char) : bool := in_ranges Nd_table c.

(** [str.isdigit] of one character: Nd and the other characters whose
    numeric type is Digit (superscripts, circled digits, ...). *)
Definition digit_table : list (Z * Z) :=
  [(48, 57); (178, 179); (185, 185); (1632, 1641); (1776, 1785);
   (1984, 1993); (2406, 2415); (2534, 2543); (2662, 2671); (2790, 2799);
   (2918, 2927); (3046, 3055); (3174, 3183); (3302, 3311); (3430, 3439);
   (3558, 3567); (3664, 3673); (3792, 3801); (3872, 3881); (4160, 4169);
   (4240, 4249); (4969, 4977); (6112, 6121); (6160, 6169); (6470, 6479);
   (6608, 6618); (6784, 6793); (6800, 6809); (6992, 7001); (7088, 7097);
   (7232, 7241); (7248, 7257); (8304, 8304); (8308, 8313); (8320, 8329);
   (9312, 9320); (9332, 9340); (9352, 9360); (9450, 9450); (9461, 9469);
   (9471, 9471); (10102, 10110); (10112, 10120); (10122, 10130);
   (42528, 42537); (43216, 43225); (43264, 43273); (43472, 43481);
   (43504, 43513); (43600, 43609); (44016, 44025); (65296, 65305);
   (66720, 66729); (68160, 68163); (68912, 68921); (69216, 69224);
   (69714, 69722); (69734, 69743); (69872, 69881); (69942, 69951);
   (70096, 70105); (70384, 70393); (70736, 70745); (70864, 70873);
   (71248, 71257); (71360, 71369); (71472, 71481); (71904, 71913);
   (72016, 72025); (72784, 72793); (73040, 73049); (73120, 73129);
   (92768, 92777); (92864, 92873); (93008, 93017); (120782, 120831);
   (123200, 123209); (123632, 123641); (125264, 125273); (127232, 127242);
   (130032, 130041)].

Definition isdigit (c : char) : bool := in_ranges digit_table c.

(** [\s] on a [str] pattern: the whitespace of Unicode. *)
Definition space_table : list (Z * Z) :=
  [(9, 13); (28, 32); (133, 133); (160, 160); (5760, 5760); (8192, 8202);
   (8232, 8233); (8239, 8239); (8287, 8287); (12288, 12288)].

Definition re_space (c : char) : bool := in_ranges space_table c.

(** The class of the special pattern: the 32 characters
    ! @ # $ % ^ & * ( ) , . ? (double quote) : { } | < > _ - + = [ ] \ ; ' / ` ~
    where the double quote is character 34. *)
Definition special_chars : str :=
  lit "!@#$%^&*(),.?" ++ [34] ++ lit ":{}|<>_-+=[]\;'/`~".

Definition re_special (c : char) : bool := existsb (Z.eqb c) special_chars.

(** [re.search(cls, s)] for a pattern that is one character class, as a
    truth value. *)
Definition re_search (cls : char -> bool) (s : str) : bool := existsb cls s.

(** [re.findall(cls, s)] for a pattern that is one character class. *)
Definition re_findall (cls : char -> bool) (s : str) : list char := filter cls s.

(** [re.search] of the pattern (.)\1{2,} as a truth value: some character
    other than the newline (which the dot does not match) three times in a
    row. *)
Fixpoint re_search_repeat (s : str) : bool :=
  match s with
  | a :: ((b :: c :: _) as t) =>
      (negb (a =? 10) && (a =? b) && (b =? c)) || re_search_repeat t
  | _ => false
  end.

(** The local function [has_sequential(s, step)]. *)
Definition has_sequential (s : str) (step : Z) : bool :=
  existsb (fun i => (nth (S i) s 0 - nth i s 0 =? step)
                    && (nth (S (S i)) s 0 - nth (S i) s 0 =? step))
          (seq 0 (length s - 2)).

(** ** Module-level data *)

Record module_state := mkModule {
  COMMON_PASSWORDS : list str;
  KEYBOARD_WALKS : list str
}.

(** The module state after import. *)
Definition module_init : module_state :=
  {| COMMON_PASSWORDS := map lit
       ["password"; "password1"; "123456"; "12345678"; "qwerty"; "abc123";
        "monkey"; "1234567"; "letmein"; "trustno1"; "dragon"; "baseball";
        "iloveyou"; "master"; "sunshine"; "ashley"; "bailey"; "passw0rd";
        "shadow"; "123123"; "654321"; "superman"; "qazwsx"; "michael";
        "football"; "password123"; "admin"; "welcome"; "login"; "hello";
        "charlie"; "donald"; "password2"; "qwerty123"; "123qwe"]%string;
     KEYBOARD_WALKS := map lit
       ["qwerty"; "asdfgh"; "zxcvbn"; "qwertyu"; "asdfghj"; "zxcvbnm";
        "1234567"; "abcdefg"; "7654321"; "gfedcba"; "aaaaaaa"; "1111111"]%string
  |}.

(** ** Entropy *)

(** The float returned by [calculate_entropy]: [0.0], or
    [n * math.log2(charset)]. *)
Inductive bits :=
| Zero
| Log2 (n : Z) (charset : Z).

(** [e < t] for a threshold [t]: n * log2 c < t iff c ^ n < 2 ^ t. *)
Definition bits_ltb (e : bits) (t : Z) : bool :=
  match e with
  | Zero => 0 <? t
  | Log2 n c => c ^ n <? 2 ^ t
  end.

(** [e >= t] *)
Definition bits_geb (e : bits) (t : Z) : bool := negb (bits_ltb e t).

(** [e == 0.0] *)
Definition bits_is_zero (e : bits) : bool :=
  match e with
  | Zero => true
  | Log2 n c => (n =? 0) || (c =? 1)
  end.

(** The real number a [bits] stands for, and the values that
    [calculate_entropy] can build: a length and a charset of at least 1. *)
Definition bits_value (e : bits) : R :=
  match e with
  | Zero => 0%R
  | Log2 n c => (IZR n * Rlog 2 (IZR c))%R
  end.

Definition bits_wf (e : bits) : Prop :=
  match e with
  | Zero => True
  | Log2 n c => 0 <= n /\ 1 <= c
  end.

Definition charset_size (password : str) : Z :=
  let charset := 0 in
  let charset := if re_search re_lower password then charset + 26 else charset in
  let charset := if re_search re_upper password then charset + 26 else charset in
  let charset := if re_search re_digit password then charset + 10 else charset in
  let charset := if re_search re_special password then charset + 32 else charset in
  charset.

Definition calculate_entropy (password : str) : bits :=
  let charset := charset_size password in
  if charset =? 0 then Zero
  else Log2 (len password) charset.

(** ** Errors, warnings and the verdict *)

(** The messages appended to [errors]:
    - [ErrMinLength]: Must be at least 12 characters long.
    - [ErrMaxLength]: Must not exceed 128 characters.
    - [ErrUppercase]: Must contain at least one uppercase letter (A-Z).
    - [ErrLowercase]: Must contain at least one lowercase letter (a-z).
    - [ErrDigit]: Must contain at least one digit (0-9).
    - [ErrSpecial]: Must contain at least one special character (!@#$%^&* etc.).
    - [ErrCommon]: Password is too common. Please choose a more unique password.
    - [ErrRepeated]: Must not contain 3 or more repeated consecutive characters (e.g. 'aaa', '111').
    - [ErrWhitespace]: Must not contain whitespace characters.
    - [ErrClasses]: Must use at least 3 different character classes.
    - [ErrEntropy e]: Password entropy too low (e bits). Add more variety. *)
Inductive error :=
| ErrMinLength
| ErrMaxLength
| ErrUppercase
| ErrLowercase
| ErrDigit
| ErrSpecial
| ErrCommon
| ErrRepeated
| ErrWhitespace
| ErrClasses
| ErrEntropy (e : bits).

(** The messages appended to [warnings]:
    - [WarnSequential]: Avoid sequential characters (e.g. 'abc', '123', 'cba').
    - [WarnKeyboardWalk]: Avoid keyboard walk patterns (e.g. 'qwerty', 'asdf').
    - [WarnEdgeDigit]: Avoid starting or ending with a digit for better strength. *)
Inductive warning :=
| WarnSequential
| WarnKeyboardWalk
| WarnEdgeDigit.

Definition warning_eq_dec (a b : warning) : {a = b} + {a <> b}.
Proof. decide equality. Defined.

Inductive strength_label := Weak | Moderate | Strong | VeryStrong.

(** The dictionary returned by [validate_password].  [entropy] stands for
    [round(entropy, 2)]. *)
Record Verdict := mkVerdict {
  valid : bool;
  score : Z;
  strength : strength_label;
  entropy : bits;
  errors : list error;
  warnings : list warning
}.

(** The local variables [errors], [warnings] and [score]. *)
Record state := mkState {
  st_errors : list error;
  st_warnings : list warning;
  st_score : Z
}.

Definition errors_append (e : error) (st : state) : state :=
  {| st_errors := st_errors st ++ [e];
     st_warnings := st_warnings st;
     st_score := st_score st |}.

Definition warnings_append (w : warning) (st : state) : state :=
  {| st_errors := st_errors st;
     st_warnings := st_warnings st ++ [w];
     st_score := st_score st |}.

Definition set_score (n : Z) (st : state) : state :=
  {| st_errors := st_errors st;
     st_warnings := st_warnings st;
     st_score := n |}.

(** [bool(x)] of a list. *)
Definition truthy {A} (l : list A) : bool :=
  match l with [] => false | _ => true end.

(** [sum] of a list of truth values. *)
Definition sum_bools (l : list bool) : Z :=
  fold_left (fun acc (b : bool) => acc + (if b then 1 else 0)) l 0.

(** The number of character classes computed by rule 14. *)
Definition classes (password : str) : Z :=
  sum_bools [re_search re_lower password;
             re_search re_upper password;
             re_search re_digit password;
             re_search re_special password].

(** The strength label chosen at the end of [validate_password]. *)
Definition strength_of (errs : list error) (sc : Z) : strength_label :=
  if truthy errs then Weak
  else if 85 <=? sc then VeryStrong
  else if 65 <=? sc then Strong
  else if 45 <=? sc then Moderate
  else Weak.

(** ** The rules of [validate_password] *)

Section Validation.

(** [str.lower] *)
Variable lower : str -> str.

(** The module state read by the call. *)
Variable m : module_state.

(** 1. Minimum length *)
Definition rule1 (password : str) (st : state) : state :=
  if len password <? 12 then errors_append ErrMinLength st
  else if 16 <=? len password then set_score (st_score st + 20) st
  else set_score (st_score st + 10) st.

(** 2. Maximum length guard *)
Definition rule2 (password : str) (st : state) : state :=
  if 128 <? len password then errors_append ErrMaxLength st else st.

(** 3. Uppercase letter *)
Definition rule3 (password : str) (st : state) : state :=
  if negb (re_search re_upper password) then errors_append ErrUppercase st
  else set_score (st_score st + 10) st.

(** 4. Lowercase letter *)
Definition rule4 (password : str) (st : state) : state :=
  if negb (re_search re_lower password) then errors_append ErrLowercase st
  else set_score (st_score st + 10) st.

(** 5. Digit *)
Definition rule5 (password : str) (st : state) : state :=
  if negb (re_search re_digit password) then errors_append ErrDigit st
  else set_score (st_score st + 10) st.

(** 6. Special character *)
Definition rule6 (password : str) (st : state) : state :=
  if negb (re_search re_special password) then errors_append ErrSpecial st
  else set_score (st_score st + 15) st.

(** 7. Multiple special characters bonus *)
Definition rule7 (password : str) (st : state) : state :=
  if 2 <=? Z.of_nat (length (re_findall re_special password))
  then set_score (st_score st + 5) st
  else st.

(** 8. Common passwords blacklist *)
Definition rule8 (password : str) (st : state) : state :=
  if str_in (lower password) (COMMON_PASSWORDS m)
  then errors_append ErrCommon st
  else st.

(** 9. Repeating characters *)
Definition rule9 (password : str) (st : state) : state :=
  if re_search_repeat password then errors_append ErrRepeated st
  else set_score (st_score st + 5) st.

(** 10. Sequential characters *)
Definition rule10 (password : str) (st : state) : state :=
  if has_sequential (lower password) 1 || has_sequential password (-1)
  then
    let st := warnings_append WarnSequential st in
    set_score (Z.max 0 (st_score st - 5)) st
  else st.

(** 11. Keyboard walk patterns: the [for] loop with its [break]. *)
Fixpoint walk_loop (walks : list str) (p_lower : str) (st : state) : state :=
  match walks with
  | [] => st
  | walk :: rest =>
      if contains walk p_lower || contains (rev walk) p_lower
      then
        let st := warnings_append WarnKeyboardWalk st in
        set_score (Z.max 0 (st_score st - 10)) st
      else walk_loop rest p_lower st
  end.

Definition rule11 (password : str) (st : state) : state :=
  let p_lower := lower password in
  walk_loop (KEYBOARD_WALKS m) p_lower st.

(** 12. Starts or ends with a digit; [or] evaluates [password[-1]] only
    when the first test is false. *)
Definition rule12 (password : str) (st : state) : result state :=
  first <- getitem password 0 ;;
  edge <- (if isdigit first then Ok true
           else (last <- getitem password (-1) ;; Ok (isdigit last))) ;;
  Ok (if edge then warnings_append WarnEdgeDigit st else st).

(** 13. Whitespace not allowed *)
Definition rule13 (password : str) (st : state) : state :=
  if re_search re_space password then errors_append ErrWhitespace st else st.

(** 14. Only one character class *)
Definition rule14 (password : str) (st : state) : state :=
  if classes password =? 1 then errors_append ErrClasses st else st.

(** 15. Entropy check *)
Definition rule15 (e : bits) (st : state) : state :=
  if bits_ltb e 50 then errors_append (ErrEntropy e) st
  else if bits_geb e 80 then set_score (st_score st + 25) st
  else if bits_geb e 60 then set_score (st_score st + 15) st
  else set_score (st_score st + 5) st.

(** Clamp score *)
Definition clamp (st : state) : state :=
  set_score (Z.min 100 (Z.max 0 (st_score st))) st.

(** The dictionary built by the [return] statement. *)
Definition verdict_of (e : bits) (st : state) : Verdict :=
  {| valid := Z.of_nat (length (st_errors st)) =? 0;
     score := st_score st;
     strength := strength_of (st_errors st) (st_score st);
     entropy := e;
     errors := st_errors st;
     warnings := st_warnings st |}.

Definition init_state : state :=
  {| st_errors := []; st_warnings := []; st_score := 0 |}.

(** Rules 1 to 11, which run before the edge-digit check. *)
Definition rules_1_11 (password : str) : state :=
  let st := init_state in
  let st := rule1 password st in
  let st := rule2 password st in
  let st := rule3 password st in
  let st := rule4 password st in
  let st := rule5 password st in
  let st := rule6 password st in
  let st := rule7 password st in
  let st := rule8 password st in
  let st := rule9 password st in
  let st := rule10 password st in
  rule11 password st.

(** Rules 13 to 15, the clamp and the [return]. *)
Definition rules_13_end (password : str) (st : state) : Verdict :=
  let st := rule13 password st in
  let st := rule14 password st in
  let e := calculate_entropy password in
  let st := rule15 e st in
  let st := clamp st in
  verdict_of e st.

Definition validate_password_in (password : str) : result Verdict :=
  let st := rules_1_11 password in
  st <- rule12 password st ;;
  Ok (rules_13_end password st).

End Validation.

(** [validate_password] in the module as imported. *)
Definition validate_password (lower : str -> str) (password : str)
  : result Verdict :=
  validate_password_in lower module_init password.

(** Lowercasing of the letters A-Z, with which [str.lower] agrees on
    strings of ASCII characters. *)
Definition ascii_lower (s : str) : str :=
  map (fun c => if (65 <=? c) && (c <=? 90) then c + 32 else c) s.

(** ** What the battery contributes, rule by rule *)

(** The message a rule appends when its condition holds. *)
Definition opt {A} (b : bool) (x : A) : list A := if b then [x] else [].

(** Some pattern of [walks], or its reverse, occurs in [p_lower]: the
    condition under which the loop of rule 11 reaches its [break]. *)
Definition walk_match (walks : list str) (p_lower : str) : bool :=
  existsb (fun walk => contains walk p_lower || contains (rev walk) p_lower)
          walks.

(** The same condition as a proposition. *)
Definition walk_occurs (walks : list str) (p_lower : str) : Prop :=
  exists walk, In walk walks /\
    (substring walk p_lower \/ substring (rev walk) p_lower).

(** The condition of rule 12 on a non-empty password. *)
Definition edge_digit (password : str) : bool :=
  isdigit (hd 0 password) || isdigit (last password 0).

(** The state handed from rule 12 to rule 13 on a non-empty password. *)
Definition after_rule12 (lower : str -> str) (m : module_state) (p : str)
  : state :=
  if edge_digit p
  then warnings_append WarnEdgeDigit (rules_1_11 lower m p)
  else rules_1_11 lower m p.

(** The errors in the order of the rules. *)
Definition battery_errors (lower : str -> str) (m : module_state)
    (password : str) : list error :=
  opt (len password <? 12) ErrMinLength
  ++ opt (128 <? len password) ErrMaxLength
  ++ opt (negb (re_search re_upper password)) ErrUppercase
  ++ opt (negb (re_search re_lower password)) ErrLowercase
  ++ opt (negb (re_search re_digit password)) ErrDigit
  ++ opt (negb (re_search re_special password)) ErrSpecial
  ++ opt (str_in (lower password) (COMMON_PASSWORDS m)) ErrCommon
  ++ opt (re_search_repeat password) ErrRepeated
  ++ opt (re_search re_space password) ErrWhitespace
  ++ opt (classes password =? 1) ErrClasses
  ++ opt (bits_ltb (calculate_entropy password) 50)
         (ErrEntropy (calculate_entropy password)).

(** The warnings in the order of the rules. *)
Definition battery_warnings (lower : str -> str) (m : module_state)
    (password : str) : list warning :=
  opt (has_sequential (lower password) 1 || has_sequential password (-1))
      WarnSequential
  ++ opt (walk_match (KEYBOARD_WALKS m) (lower password)) WarnKeyboardWalk
  ++ opt (edge_digit password) WarnEdgeDigit.

(** ** Notions used to state what the rules detect *)

(** Some character other than the newline three times in a row: what the
    pattern of rule 9 matches. *)
Definition has_run3 (s : str) : Prop :=
  exists pre c post, s = pre ++ c :: c :: c :: post /\ c <> 10.

(** Three consecutive characters whose code points go up by [step] each
    time: what [has_sequential] looks for. *)
Definition arith_run (s : str) (step : Z) : Prop :=
  exists pre a post, s = pre ++ a :: (a + step) :: (a + step + step) :: post.

(** The number of the rule that appends a message. *)
Definition error_rule (e : error) : Z :=
  match e with
  | ErrMinLength => 1
  | ErrMaxLength => 2
  | ErrUppercase => 3
  | ErrLowercase => 4
  | ErrDigit => 5
  | ErrSpecial => 6
  | ErrCommon => 8
  | ErrRepeated => 9
  | ErrWhitespace => 13
  | ErrClasses => 14
  | ErrEntropy _ => 15
  end.

Definition warning_rule (w : warning) : Z :=
  match w with
  | WarnSequential => 10
  | WarnKeyboardWalk => 11
  | WarnEdgeDigit => 12
  end.

(** The points granted by rule 15. *)
Definition entropy_points (e : bits) : Z :=
  if bits_ltb e 50 then 0
  else if bits_geb e 80 then 25
  else if bits_geb e 60 then 15
  else 5.

(** Seven of the twelve keyboard walks: the other five are a longer walk
    that begins with one of these, or the reverse of one of these. *)
Definition short_walks : list str :=
  map lit ["qwerty"; "asdfgh"; "zxcvbn"; "1234567"; "abcdefg"; "aaaaaaa";
           "1111111"]%string.

(** ** The route [/validate] *)

(** A value returned by [request.get_json]: a JSON document as Python
    objects.  The value of a float is not modelled; an object is the list
    of its members, each key once. *)
#[local] Unset Elimination Schemes.
Inductive json :=
| JNull
| JBool (b : bool)
| JInt (n : Z)
| JFloat
| JString (s : str)
| JArray (l : list json)
| JObject (members : list (str * json)).
#[local] Set Elimination Schemes.

(** The exceptions that leave the route: those of [validate_password], the
    [AttributeError] of calling [get] on a value that is not a dictionary,
    and the [TypeError] of [len] or [re.search] on a value that is not a
    string. *)
Inductive route_exn :=
| FromEngine (e : exn)
| AttributeError
| TypeError.

Inductive reply :=
| Jsonify (v : Verdict)
| Unhandled (e : route_exn).

(** [d.get(key, default)] *)
Fixpoint dict_get (d : list (str * json)) (key : str) (default : json) : json :=
  match d with
  | [] => default
  | (k, x) :: d' => if str_eqb k key then x else dict_get d' key default
  end.

(** [validate_password] called on any JSON value.  On [None], a boolean or
    a number, [len(password)] of rule 1 raises [TypeError]; on a list or a
    dictionary [len] answers and [re.search] of rule 3 raises [TypeError];
    no rule before these can fail. *)
Definition validate_password_value (lower : str -> str) (password : json)
  : reply :=
  match password with
  | JString s =>
      match validate_password lower s with
      | Ok v => Jsonify v
      | Raise e => Unhandled (FromEngine e)
      end
  | _ => Unhandled TypeError
  end.

(** The view function [validate], from the parsed body on. *)
Definition validate (lower : str -> str) (data : json) : reply :=
  match data with
  | JObject d =>
      let password := dict_get d (lit "password") (JString empty) in
      validate_password_value lower password
  | _ => Unhandled AttributeError
  end.

(** ** The call on the heap

    A second embedding of [validate_password], with the objects the code
    shares or could share kept in a heap: the set [COMMON_PASSWORDS] and
    the list [KEYBOARD_WALKS], which the module namespace refers to, and
    the lists [errors] and [warnings], which each call creates, mutates
    with [append] and hands out inside the returned dictionary.  Strings
    and integers are immutable and stay values. *)

(** An element of a list or set object. *)
Inductive item :=
| IStr (s : str)
| IError (e : error)
| IWarning (w : warning).

(** The heap: every list or set object, by address. *)
Definition heap := list (list item).

(** The heap and the two global names of the module. *)
Record world := mkWorld {
  objects : heap;
  COMMON_PASSWORDS_ref : nat;
  KEYBOARD_WALKS_ref : nat
}.

Inductive outcome (A : Type) :=
| Returns (a : A)
| Raises (e : route_exn).
Arguments Raises {A} e.

(** A computation: from a world to an outcome and the world it leaves,
    also when it raises. *)
Definition M (A : Type) := world -> outcome A * world.

Definition ret {A} (a : A) : M A := fun w => (Returns a, w).

Definition raise {A} (e : route_exn) : M A := fun w => (Raises e, w).

Definition bindM {A B} (c : M A) (k : A -> M B) : M B :=
  fun w =>
    match c w with
    | (Returns a, w') => k a w'
    | (Raises e, w') => (Raises e, w')
    end.

Notation "x <-- c ;; k" := (bindM c (fun x => k))
  (at level 100, c at next level, right associativity).

(** An exception of the pure helpers, raised in the world. *)
Definition lift {A} (r : result A) : M A :=
  fun w =>
    match r with
    | Ok a => (Returns a, w)
    | Raise e => (Raises (FromEngine e), w)
    end.

Definition deref (h : heap) (r : nat) : list item := nth r h [].

Fixpoint update (h : heap) (r : nat) (o : list item) : heap :=
  match h, r with
  | [], _ => []
  | _ :: h', O => o :: h'
  | x :: h', S r' => x :: update h' r' o
  end.

(** [[]]: a new list object at a fresh address. *)
Definition new_list : M nat :=
  fun w =>
    (Returns (length (objects w)),
     {| objects := objects w ++ [[]];
        COMMON_PASSWORDS_ref := COMMON_PASSWORDS_ref w;
        KEYBOARD_WALKS_ref := KEYBOARD_WALKS_ref w |}).

(** [l.append(x)]: the object at [l] is changed in place. *)
Definition list_append (l : nat) (x : item) : M unit :=
  fun w =>
    (Returns tt,
     {| objects := update (objects w) l (deref (objects w) l ++ [x]);
        COMMON_PASSWORDS_ref := COMMON_PASSWORDS_ref w;
        KEYBOARD_WALKS_ref := KEYBOARD_WALKS_ref w |}).

(** The elements of the object at [l]. *)
Definition list_read (l : nat) : M (list item) :=
  fun w => (Returns (deref (objects w) l), w).

(** The two global names. *)
Definition global_COMMON_PASSWORDS : M nat :=
  fun w => (Returns (COMMON_PASSWORDS_ref w), w).

Definition global_KEYBOARD_WALKS : M nat :=
  fun w => (Returns (KEYBOARD_WALKS_ref w), w).

(** [x in S] for a string and a set object: an element that is not a
    string is not equal to [x]. *)
Definition item_str_in (x : str) (S : list item) : bool :=
  existsb (fun i => match i with IStr s => str_eqb x s | _ => false end) S.

(** The dictionary of the [return] statement: four values and the two
    list objects. *)
Record verdict_dict := mkDict {
  d_valid : bool;
  d_score : Z;
  d_strength : strength_label;
  d_entropy : bits;
  d_errors : nat;
  d_warnings : nat
}.

Section Heap.

Variable lower : str -> str.

Definition rule1_st (password : str) (errors : nat) (score : Z) : M Z :=
  if len password <? 12
  then (_ <-- list_append errors (IError ErrMinLength) ;; ret score)
  else if 16 <=? len password then ret (score + 20)
  else ret (score + 10).

Definition rule2_st (password : str) (errors : nat) (score : Z) : M Z :=
  if 128 <? len password
  then (_ <-- list_append errors (IError ErrMaxLength) ;; ret score)
  else ret score.

Definition rule3_st (password : str) (errors : nat) (score : Z) : M Z :=
  if negb (re_search re_upper password)
  then (_ <-- list_append errors (IError ErrUppercase) ;; ret score)
  else ret (score + 10).

Definition rule4_st (password : str) (errors : nat) (score : Z) : M Z :=
  if negb (re_search re_lower password)
  then (_ <-- list_append errors (IError ErrLowercase) ;; ret score)
  else ret (score + 10).

Definition rule5_st (password : str) (errors : nat) (score : Z) : M Z :=
  if negb (re_search re_digit password)
  then (_ <-- list_append errors (IError ErrDigit) ;; ret score)
  else ret (score + 10).

Definition rule6_st (password : str) (errors : nat) (score : Z) : M Z :=
  if negb (re_search re_special password)
  then (_ <-- list_append errors (IError ErrSpecial) ;; ret score)
  else ret (score + 15).

Definition rule7_st (password : str) (score : Z) : M Z :=
  if 2 <=? Z.of_nat (length (re_findall re_special password))
  then ret (score + 5)
  else ret score.

Definition rule8_st (password : str) (errors : nat) (score : Z) : M Z :=
  common <-- global_COMMON_PASSWORDS ;;
  members <-- list_read common ;;
  if item_str_in (lower password) members
  then (_ <-- list_append errors (IError ErrCommon) ;; ret score)
  else ret score.

Definition rule9_st (password : str) (errors : nat) (score : Z) : M Z :=
  if re_search_repeat password
  then (_ <-- list_append errors (IError ErrRepeated) ;; ret score)
  else ret (score + 5).

Definition rule10_st (password : str) (warnings : nat) (score : Z) : M Z :=
  if has_sequential (lower password) 1 || has_sequential password (-1)
  then (_ <-- list_append warnings (IWarning WarnSequential) ;;
        ret (Z.max 0 (score - 5)))
  else ret score.

(** The loop of rule 11 over the elements of [KEYBOARD_WALKS]; the test
    [walk in p_lower] raises [TypeError] for a [walk] that is not a
    string. *)
Fixpoint walk_loop_st (walks : list item) (p_lower : str) (warnings : nat)
    (score : Z) : M Z :=
  match walks with
  | [] => ret score
  | IStr walk :: rest =>
      if contains walk p_lower || contains (rev walk) p_lower
      then (_ <-- list_append warnings (IWarning WarnKeyboardWalk) ;;
            ret (Z.max 0 (score - 10)))
      else walk_loop_st rest p_lower warnings score
  | _ :: _ => raise TypeError
  end.

Definition rule11_st (password : str) (warnings : nat) (score : Z) : M Z :=
  let p_lower := lower password in
  walks_ref <-- global_KEYBOARD_WALKS ;;
  walks <-- list_read walks_ref ;;
  walk_loop_st walks p_lower warnings score.

Definition rule12_st (password : str) (warnings : nat) : M unit :=
  first <-- lift (getitem password 0) ;;
  edge <-- (if isdigit first then ret true
            else (last <-- lift (getitem password (-1)) ;;
                  ret (isdigit last))) ;;
  if edge then list_append warnings (IWarning WarnEdgeDigit) else ret tt.

Definition rule13_st (password : str) (errors : nat) : M unit :=
  if re_search re_space password
  then list_append errors (IError ErrWhitespace)
  else ret tt.

Definition rule14_st (password : str) (errors : nat) : M unit :=
  if classes password =? 1
  then list_append errors (IError ErrClasses)
  else ret tt.

Definition rule15_st (e : bits) (errors : nat) (score : Z) : M Z :=
  if bits_ltb e 50
  then (_ <-- list_append errors (IError (ErrEntropy e)) ;; ret score)
  else if bits_geb e 80 then ret (score + 25)
  else if bits_geb e 60 then ret (score + 15)
  else ret (score + 5).

(** The strength label and the [return] statement; both read the object
    [errors]. *)
Definition finish_st (e : bits) (errors warnings : nat) (score : Z)
  : M verdict_dict :=
  let score := Z.min 100 (Z.max 0 score) in
  es <-- list_read errors ;;
  let strength :=
    if truthy es then Weak
    else if 85 <=? score then VeryStrong
    else if 65 <=? score then Strong
    else if 45 <=? score then Moderate
    else Weak in
  es' <-- list_read errors ;;
  ret {| d_valid := Z.of_nat (length es') =? 0;
         d_score := score;
         d_strength := strength;
         d_entropy := e;
         d_errors := errors;
         d_warnings := warnings |}.

Definition validate_password_st (password : str) : M verdict_dict :=
  errors <-- new_list ;;
  warnings <-- new_list ;;
  let score := 0 in
  score <-- rule1_st password errors score ;;
  score <-- rule2_st password errors score ;;
  score <-- rule3_st password errors score ;;
  score <-- rule4_st password errors score ;;
  score <-- rule5_st password errors score ;;
  score <-- rule6_st password errors score ;;
  score <-- rule7_st password score ;;
  score <-- rule8_st password errors score ;;
  score <-- rule9_st password errors score ;;
  score <-- rule10_st password warnings score ;;
  score <-- rule11_st password warnings score ;;
  _ <-- rule12_st password warnings ;;
  _ <-- rule13_st password errors ;;
  _ <-- rule14_st password errors ;;
  let e := calculate_entropy password in
  score <-- rule15_st e errors score ;;
  finish_st e errors warnings score.

End Heap.

(** The world after the module has been imported. *)
Definition world_init : world :=
  {| objects := [map IStr (COMMON_PASSWORDS module_init);
                 map IStr (KEYBOARD_WALKS module_init)];
     COMMON_PASSWORDS_ref := 0;
     KEYBOARD_WALKS_ref := 1 |}.

(** The two global names refer to objects of [w] that hold the strings of
    [m]. *)
Definition module_at (w : world) (m : module_state) : Prop :=
  (COMMON_PASSWORDS_ref w < length (objects w))%nat
  /\ (KEYBOARD_WALKS_ref w < length (objects w))%nat
  /\ deref (objects w) (COMMON_PASSWORDS_ref w) = map IStr (COMMON_PASSWORDS m)
  /\ deref (objects w) (KEYBOARD_WALKS_ref w) = map IStr (KEYBOARD_WALKS m).

Definition errors_of (l : list item) : list error :=
  flat_map (fun i => match i with IError e => [e] | _ => [] end) l.

Definition warnings_of (l : list item) : list warning :=
  flat_map (fun i => match i with IWarning x => [x] | _ => [] end) l.

(** The record a caller reads off a returned dictionary in a world. *)
Definition read_verdict (w : world) (d : verdict_dict) : Verdict :=
  {| valid := d_valid d;
     score := d_score d;
     strength := d_strength d;
     entropy := d_entropy d;
     errors := errors_of (deref (objects w) (d_errors d));
     warnings := warnings_of (deref (objects w) (d_warnings d)) |}.

(** What a caller sees of a call: the record, or the exception. *)
Definition seen (w : world) (r : outcome verdict_dict) : outcome Verdict :=
  match r with
  | Returns d => Returns (read_verdict w d)
  | Raises e => Raises e
  end.

Definition outcome_of (r : result Verdict) : outcome Verdict :=
  match r with
  | Ok v => Returns v
  | Raise e => Raises (FromEngine e)
  end.

(** The world in which a call on [w0] is when its local variables
    [errors] and [warnings] hold the lists of [st]: the objects of [w0] and
    after them the two lists. *)
Definition world_with (w0 : world) (st : state) : world :=
  {| objects := objects w0 ++ [map IError (st_errors st);
                               map IWarning (st_warnings st)];
     COMMON_PASSWORDS_ref := COMMON_PASSWORDS_ref w0;
     KEYBOARD_WALKS_ref := KEYBOARD_WALKS_ref w0 |}.

(** The dictionary such a call returns for the entropy [e]. *)
Definition dict_at (w0 : world) (e : bits) (st : state) : verdict_dict :=
  let sc := Z.min 100 (Z.max 0 (st_score st)) in
  {| d_valid := Z.of_nat (length (st_errors st)) =? 0;
     d_score := sc;
     d_strength := strength_of (st_errors st) sc;
     d_entropy := e;
     d_errors := length (objects w0);
     d_warnings := S (length (objects w0)) |}.

(** ** Strings: equality, prefixes, substrings, indexing *)

Lemma str_eqb_eq (a b : str) : str_eqb a b = true <-> a = b.
Proof.
  revert b; induction a as [|x a IH]; intros [|y b]; simpl;
    try (split; [discriminate | congruence]); try tauto.
  rewrite andb_true_iff, Z.eqb_eq, IH.
  split; [intros [-> ->]; reflexivity | intros E; inversion E; auto].
Qed.

Lemma str_in_In (x : str) (S : list str) : str_in x S = true <-> In x S.
Proof.
  unfold str_in. rewrite existsb_exists. split.
  - intros (y & Hy & E). apply str_eqb_eq in E. now subst.
  - intros H. exists x. split; [assumption | now apply str_eqb_eq].
Qed.

Lemma startswith_prefix (pre s : str) :
  startswith pre s = true <-> exists post, s = pre ++ post.
Proof.
  revert s; induction pre as [|x pre IH]; intros s; simpl.
  - split; [intros _; now exists s | reflexivity].
  - destruct s as [|y s].
    + split; [discriminate | intros (post & E); discriminate].
    + rewrite andb_true_iff, Z.eqb_eq, IH. split.
      * intros (-> & post & ->). now exists post.
      * intros (post & E). inversion E; subst. split; [reflexivity | now exists post].
Qed.

Lemma contains_substring (needle hay : str) :
  contains needle hay = true <-> substring needle hay.
Proof.
  unfold substring. induction hay as [|y hay IH].
  - simpl. rewrite orb_false_r, startswith_prefix. split.
    + intros (post & E). now exists [], post.
    + intros (pre & post & E). destruct pre; [now exists post | discriminate].
  - cbn [contains]. rewrite orb_true_iff, startswith_prefix, IH. split.
    + intros [(post & E) | (pre & post & E)].
      * now exists [], post.
      * exists (y :: pre), post. now rewrite E.
    + intros (pre & post & E). destruct pre as [|z pre].
      * left. now exists post.
      * right. inversion E; subst. now exists pre, post.
Qed.

Lemma nth_pred_length_last (s : str) (d : char) :
  nth (length s - 1) s d = last s d.
Proof.
  induction s as [|x s IH]; [reflexivity|].
  destruct s as [|y s]; [reflexivity|].
  replace (length (x :: y :: s) - 1)%nat with (S (length (y :: s) - 1))
    by (simpl; lia).
  change (nth (length (y :: s) - 1) (y :: s) d = last (y :: s) d).
  exact IH.
Qed.

Lemma getitem_nil (i : Z) : getitem [] i = Raise IndexError.
Proof.
  unfold getitem, len. simpl. destruct (i <? 0) eqn:E.
  - rewrite Z.add_0_r, E. reflexivity.
  - destruct (0 <=? i) eqn:E'; [now rewrite orb_true_r|].
    apply Z.ltb_ge in E. apply Z.leb_gt in E'. lia.
Qed.

Lemma getitem_first (c : char) (s : str) : getitem (c :: s) 0 = Ok c.
Proof.
  unfold getitem, len. cbn [Z.ltb Z.compare].
  replace (Z.of_nat (length (c :: s)) <=? 0) with false; [reflexivity|].
  symmetry. apply Z.leb_gt. simpl length. lia.
Qed.

Lemma getitem_last (c : char) (s : str) :
  getitem (c :: s) (-1) = Ok (last (c :: s) 0).
Proof.
  unfold getitem, len. cbn [Z.ltb Z.compare].
  set (n := length (c :: s)).
  assert (Hn : (1 <= n)%nat) by (subst n; simpl; lia).
  replace (-1 + Z.of_nat n <? 0) with false by (symmetry; apply Z.ltb_ge; lia).
  replace (Z.of_nat n <=? -1 + Z.of_nat n) with false
    by (symmetry; apply Z.leb_gt; lia).
  cbn [orb]. replace (Z.to_nat (-1 + Z.of_nat n)) with (n - 1)%nat by lia.
  subst n. now rewrite nth_pred_length_last.
Qed.

(** ** The effect of each rule on the three local variables *)

Lemma opt_nil {A} (b : bool) (x : A) : opt b x = [] <-> b = false.
Proof. destruct b; simpl; split; congruence. Qed.

Lemma in_opt {A} (b : bool) (x y : A) : In y (opt b x) <-> b = true /\ x = y.
Proof. destruct b; simpl; intuition congruence. Qed.

Lemma walk_match_occurs (walks : list str) (p_lower : str) :
  walk_match walks p_lower = true <-> walk_occurs walks p_lower.
Proof.
  unfold walk_match, walk_occurs. rewrite existsb_exists.
  split; intros (w & Hin & H); exists w; split; try assumption.
  - apply orb_true_iff in H. now rewrite <- !contains_substring.
  - apply orb_true_iff. now rewrite !contains_substring.
Qed.

(** The loop of rule 11 stops at the first pattern that occurs, whatever
    follows it in the list. *)
Lemma walk_loop_match (walks : list str) (p_lower : str) (st : state) :
  walk_loop walks p_lower st =
  if walk_match walks p_lower
  then set_score (Z.max 0 (st_score st - 10))
                 (warnings_append WarnKeyboardWalk st)
  else st.
Proof.
  induction walks as [|w walks IH]; simpl; [reflexivity|].
  destruct (contains w p_lower || contains (rev w) p_lower); simpl; auto.
Qed.

Ltac rule_effect :=
  intros;
  cbv beta delta [rule1 rule2 rule3 rule4 rule5 rule6 rule7 rule8 rule9
                  rule10 rule11 rule13 rule14 rule15 clamp opt];
  rewrite ?walk_loop_match;
  repeat match goal with
         | |- context [if ?b then _ else _] => destruct b
         end;
  simpl; rewrite ?app_nil_r; reflexivity.

Section Effects.

Variable lower : str -> str.
Variable m : module_state.

Lemma rule1_errors p st :
  st_errors (rule1 p st) = st_errors st ++ opt (len p <? 12) ErrMinLength.
Proof. rule_effect. Qed.

Lemma rule2_errors p st :
  st_errors (rule2 p st) = st_errors st ++ opt (128 <? len p) ErrMaxLength.
Proof. rule_effect. Qed.

Lemma rule3_errors p st :
  st_errors (rule3 p st)
  = st_errors st ++ opt (negb (re_search re_upper p)) ErrUppercase.
Proof. rule_effect. Qed.

Lemma rule4_errors p st :
  st_errors (rule4 p st)
  = st_errors st ++ opt (negb (re_search re_lower p)) ErrLowercase.
Proof. rule_effect. Qed.

Lemma rule5_errors p st :
  st_errors (rule5 p st)
  = st_errors st ++ opt (negb (re_search re_digit p)) ErrDigit.
Proof. rule_effect. Qed.

Lemma rule6_errors p st :
  st_errors (rule6 p st)
  = st_errors st ++ opt (negb (re_search re_special p)) ErrSpecial.
Proof. rule_effect. Qed.

Lemma rule7_errors p st : st_errors (rule7 p st) = st_errors st.
Proof. rule_effect. Qed.

Lemma rule8_errors p st :
  st_errors (rule8 lower m p st)
  = st_errors st ++ opt (str_in (lower p) (COMMON_PASSWORDS m)) ErrCommon.
Proof. rule_effect. Qed.

Lemma rule9_errors p st :
  st_errors (rule9 p st) = st_errors st ++ opt (re_search_repeat p) ErrRepeated.
Proof. rule_effect. Qed.

Lemma rule10_errors p st : st_errors (rule10 lower p st) = st_errors st.
Proof. rule_effect. Qed.

Lemma rule11_errors p st : st_errors (rule11 lower m p st) = st_errors st.
Proof. rule_effect. Qed.

Lemma rule13_errors p st :
  st_errors (rule13 p st) = st_errors st ++ opt (re_search re_space p) ErrWhitespace.
Proof. rule_effect. Qed.

Lemma rule14_errors p st :
  st_errors (rule14 p st) = st_errors st ++ opt (classes p =? 1) ErrClasses.
Proof. rule_effect. Qed.

Lemma rule15_errors e st :
  st_errors (rule15 e st) = st_errors st ++ opt (bits_ltb e 50) (ErrEntropy e).
Proof. rule_effect. Qed.

Lemma clamp_errors st : st_errors (clamp st) = st_errors st.
Proof. reflexivity. Qed.

Lemma rule1_warnings p st : st_warnings (rule1 p st) = st_warnings st.
Proof. rule_effect. Qed.
Lemma rule2_warnings p st : st_warnings (rule2 p st) = st_warnings st.
Proof. rule_effect. Qed.
Lemma rule3_warnings p st : st_warnings (rule3 p st) = st_warnings st.
Proof. rule_effect. Qed.
Lemma rule4_warnings p st : st_warnings (rule4 p st) = st_warnings st.
Proof. rule_effect. Qed.
Lemma rule5_warnings p st : st_warnings (rule5 p st) = st_warnings st.
Proof. rule_effect. Qed.
Lemma rule6_warnings p st : st_warnings (rule6 p st) = st_warnings st.
Proof. rule_effect. Qed.
Lemma rule7_warnings p st : st_warnings (rule7 p st) = st_warnings st.
Proof. rule_effect. Qed.
Lemma rule8_warnings p st : st_warnings (rule8 lower m p st) = st_warnings st.
Proof. rule_effect. Qed.
Lemma rule9_warnings p st : st_warnings (rule9 p st) = st_warnings st.
Proof. rule_effect. Qed.

Lemma rule10_warnings p st :
  st_warnings (rule10 lower p st)
  = st_warnings st
    ++ opt (has_sequential (lower p) 1 || has_sequential p (-1)) WarnSequential.
Proof. rule_effect. Qed.

Lemma rule11_warnings p st :
  st_warnings (rule11 lower m p st)
  = st_warnings st
    ++ opt (walk_match (KEYBOARD_WALKS m) (lower p)) WarnKeyboardWalk.
Proof. rule_effect. Qed.

Lemma rule13_warnings p st : st_warnings (rule13 p st) = st_warnings st.
Proof. rule_effect. Qed.
Lemma rule14_warnings p st : st_warnings (rule14 p st) = st_warnings st.
Proof. rule_effect. Qed.
Lemma rule15_warnings e st : st_warnings (rule15 e st) = st_warnings st.
Proof. rule_effect. Qed.

(** The two deductions, with their floor. *)
Lemma rule10_score p st :
  st_score (rule10 lower p st)
  = if has_sequential (lower p) 1 || has_sequential p (-1)
    then Z.max 0 (st_score st - 5) else st_score st.
Proof. rule_effect. Qed.

Lemma rule11_score p st :
  st_score (rule11 lower m p st)
  = if walk_match (KEYBOARD_WALKS m) (lower p)
    then Z.max 0 (st_score st - 10) else st_score st.
Proof. rule_effect. Qed.

(** Rule 12 on the empty and on a non-empty password. *)
Lemma rule12_nil st : rule12 [] st = Raise IndexError.
Proof. reflexivity. Qed.

Lemma rule12_nonempty p st :
  p <> [] ->
  rule12 p st = Ok (if edge_digit p then warnings_append WarnEdgeDigit st else st).
Proof.
  destruct p as [|c p]; [congruence|]. intros _.
  unfold rule12, edge_digit. rewrite getitem_first. cbn [bind hd].
  destruct (isdigit c); [reflexivity|].
  rewrite getitem_last. reflexivity.
Qed.

End Effects.

Create Rewrite HintDb battery_errs.
Create Rewrite HintDb battery_warns.

#[export] Hint Rewrite rule1_errors rule2_errors rule3_errors rule4_errors
  rule5_errors rule6_errors rule7_errors rule8_errors rule9_errors
  rule10_errors rule11_errors rule13_errors rule14_errors rule15_errors
  clamp_errors : battery_errs.

#[export] Hint Rewrite rule1_warnings rule2_warnings rule3_warnings
  rule4_warnings rule5_warnings rule6_warnings rule7_warnings rule8_warnings
  rule9_warnings rule10_warnings rule11_warnings rule13_warnings
  rule14_warnings rule15_warnings : battery_warns.

(** ** The shape of a call *)

Section Calls.

Variable lower : str -> str.
Variable m : module_state.

Lemma validate_nil : validate_password_in lower m [] = Raise IndexError.
Proof. reflexivity. Qed.

Lemma validate_nonempty p :
  p <> [] ->
  validate_password_in lower m p = Ok (rules_13_end p (after_rule12 lower m p)).
Proof.
  intros Hp. unfold validate_password_in.
  rewrite (rule12_nonempty _ Hp). reflexivity.
Qed.

Lemma validate_Ok_inv p v :
  validate_password_in lower m p = Ok v ->
  p <> [] /\ v = rules_13_end p (after_rule12 lower m p).
Proof.
  destruct p as [|c p].
  - rewrite validate_nil. discriminate.
  - rewrite validate_nonempty by discriminate.
    intros E. inversion E. split; [discriminate | reflexivity].
Qed.

Lemma after_rule12_errors p :
  st_errors (after_rule12 lower m p) = st_errors (rules_1_11 lower m p).
Proof. unfold after_rule12. now destruct (edge_digit p). Qed.

Lemma after_rule12_score p :
  st_score (after_rule12 lower m p) = st_score (rules_1_11 lower m p).
Proof. unfold after_rule12. now destruct (edge_digit p). Qed.

Lemma after_rule12_warnings p :
  st_warnings (after_rule12 lower m p)
  = st_warnings (rules_1_11 lower m p) ++ opt (edge_digit p) WarnEdgeDigit.
Proof.
  unfold after_rule12, opt. destruct (edge_digit p); simpl;
    now rewrite ?app_nil_r.
Qed.

Lemma rules_13_end_errors p st :
  errors (rules_13_end p st)
  = st_errors st
    ++ opt (re_search re_space p) ErrWhitespace
    ++ opt (classes p =? 1) ErrClasses
    ++ opt (bits_ltb (calculate_entropy p) 50)
           (ErrEntropy (calculate_entropy p)).
Proof.
  unfold rules_13_end, verdict_of; cbn [errors].
  autorewrite with battery_errs. now rewrite <- !app_assoc.
Qed.

Lemma rules_1_11_errors p :
  st_errors (rules_1_11 lower m p)
  = opt (len p <? 12) ErrMinLength
    ++ opt (128 <? len p) ErrMaxLength
    ++ opt (negb (re_search re_upper p)) ErrUppercase
    ++ opt (negb (re_search re_lower p)) ErrLowercase
    ++ opt (negb (re_search re_digit p)) ErrDigit
    ++ opt (negb (re_search re_special p)) ErrSpecial
    ++ opt (str_in (lower p) (COMMON_PASSWORDS m)) ErrCommon
    ++ opt (re_search_repeat p) ErrRepeated.
Proof.
  unfold rules_1_11. autorewrite with battery_errs.
  cbn [init_state st_errors app]. now rewrite <- !app_assoc.
Qed.

Lemma rules_1_11_warnings p :
  st_warnings (rules_1_11 lower m p)
  = opt (has_sequential (lower p) 1 || has_sequential p (-1)) WarnSequential
    ++ opt (walk_match (KEYBOARD_WALKS m) (lower p)) WarnKeyboardWalk.
Proof.
  unfold rules_1_11. autorewrite with battery_warns.
  cbn [init_state st_warnings app]. reflexivity.
Qed.

(** The lists of a returned verdict are those of the battery. *)
Lemma validate_errors p v :
  validate_password_in lower m p = Ok v ->
  errors v = battery_errors lower m p.
Proof.
  intros H. apply validate_Ok_inv in H as [_ ->].
  rewrite rules_13_end_errors, after_rule12_errors, rules_1_11_errors.
  unfold battery_errors. now rewrite <- !app_assoc.
Qed.

Lemma validate_warnings p v :
  validate_password_in lower m p = Ok v ->
  warnings v = battery_warnings lower m p.
Proof.
  intros H. apply validate_Ok_inv in H as [_ ->].
  unfold rules_13_end, verdict_of; cbn [warnings].
  change (st_warnings (clamp ?s)) with (st_warnings s).
  autorewrite with battery_warns.
  rewrite after_rule12_warnings, rules_1_11_warnings.
  unfold battery_warnings. now rewrite <- !app_assoc.
Qed.

End Calls.

(** ** Rule 12 and the empty password *)

(** C1.  The claim is that every input, the empty string included, gets a
    verdict.  On the empty string the edge-digit check evaluates
    [password[0]] and the call ends with [IndexError], whatever the
    lowercasing does. *)
Theorem validate_password_empty_raises (lower : str -> str) :
  validate_password lower empty = Raise IndexError.
Proof. reflexivity. Qed.

(** Every other password gets a verdict. *)
Lemma validate_password_returns (lower : str -> str) (p : str) :
  p <> [] -> exists v, validate_password lower p = Ok v.
Proof.
  intros Hp. unfold validate_password.
  rewrite validate_nonempty by assumption. eauto.
Qed.

(** C2 as stated fails: no verdict is returned for the empty string, so
    there is none with the fields the scenario lists. *)
Lemma empty_password_has_no_verdict :
  ~ exists v,
      validate_password ascii_lower empty = Ok v
      /\ valid v = false /\ score v = 0
      /\ In ErrMinLength (errors v) /\ In ErrUppercase (errors v)
      /\ In ErrLowercase (errors v) /\ In ErrDigit (errors v)
      /\ In ErrSpecial (errors v) /\ In ErrClasses (errors v)
      /\ (exists e, In (ErrEntropy e) (errors v))
      /\ ~ In ErrWhitespace (errors v).
Proof. intros (v & H & _). discriminate H. Qed.

(** C2, amended.  On the empty string the rules that run before the
    edge-digit check leave the five errors of rules 1 and 3 to 6, no warning
    and a running score of 5 (the bonus of rule 9 for having no repeated
    run).  Of the rules after it, the whitespace rule and the class-diversity
    rule change nothing (no class is present, and the rule asks for exactly
    one), and the entropy rule appends its error, for an entropy of 0.0,
    and adds no points. *)
Theorem empty_password_rules (lower : str -> str) :
  lower [] = [] ->
  let st := rules_1_11 lower module_init empty in
  st_errors st = [ErrMinLength; ErrUppercase; ErrLowercase; ErrDigit; ErrSpecial]
  /\ st_warnings st = []
  /\ st_score st = 5
  /\ forall st' : state,
       rule13 empty st' = st'
       /\ rule14 empty st' = st'
       /\ calculate_entropy empty = Zero
       /\ rule15 (calculate_entropy empty) st' = errors_append (ErrEntropy Zero) st'.
Proof.
  intros Hl. cbv zeta.
  unfold empty.
  unfold rules_1_11, rule11, rule10, rule8. rewrite Hl.
  repeat split.
Qed.

Lemma empty_password_rules_witness :
  ascii_lower [] = []
  /\ st_score (rules_1_11 ascii_lower module_init empty) = 5.
Proof.
  split; [reflexivity|].
  apply (empty_password_rules ascii_lower). reflexivity.
Defined.

(** ** Rule 14 *)

Lemma classes_count (p : str) :
  classes p
  = Z.b2z (re_search re_lower p) + Z.b2z (re_search re_upper p)
    + Z.b2z (re_search re_digit p) + Z.b2z (re_search re_special p).
Proof.
  unfold classes, sum_bools. cbn [fold_left].
  destruct (re_search re_lower p), (re_search re_upper p),
    (re_search re_digit p), (re_search re_special p); reflexivity.
Qed.

(** C3 as stated fails: a lowercase letter and a digit are two classes,
    fewer than three, and the verdict carries no class-diversity error. *)
Lemma two_classes_no_diversity_error :
  exists v,
    validate_password ascii_lower (lit "abcdefgh1357") = Ok v
    /\ classes (lit "abcdefgh1357") < 3
    /\ ~ In ErrClasses (errors v).
Proof.
  eexists. split; [vm_compute; reflexivity|].
  split; [reflexivity|].
  cbn [errors In]. intros H.
  repeat (destruct H as [H | H]; [discriminate H|]). exact H.
Qed.

(** C3, amended.  For every non-empty password a verdict is returned, and
    the class-diversity error is among its errors exactly when one single
    class of the four is present. *)
Theorem diversity_error_iff_one_class (lower : str -> str) (p : str) :
  p <> [] ->
  exists v,
    validate_password lower p = Ok v
    /\ (In ErrClasses (errors v) <-> classes p = 1).
Proof.
  intros Hp. destruct (validate_password_returns lower Hp) as [v Hv].
  exists v. split; [exact Hv|].
  rewrite (validate_errors _ _ _ Hv). unfold battery_errors.
  rewrite !in_app_iff, !in_opt, Z.eqb_eq.
  intuition congruence.
Qed.

Lemma diversity_error_iff_one_class_witness :
  exists v,
    validate_password ascii_lower (lit "password") = Ok v
    /\ (In ErrClasses (errors v) <-> classes (lit "password") = 1).
Proof.
  apply (diversity_error_iff_one_class ascii_lower (p := lit "password")).
  discriminate.
Defined.

(** ** The verdict *)

(** C4.  A returned verdict is valid exactly when its error list is empty,
    and every non-empty password gets a verdict. *)
Theorem valid_iff_no_errors (lower : str -> str) (p : str) :
  (p <> [] -> exists v, validate_password lower p = Ok v)
  /\ forall v, validate_password lower p = Ok v ->
               valid v = match errors v with [] => true | _ :: _ => false end.
Proof.
  split; [apply validate_password_returns|].
  intros v H. apply validate_Ok_inv in H as [_ ->].
  unfold rules_13_end, verdict_of; cbn [valid errors].
  now destruct (st_errors _).
Qed.

Lemma valid_iff_no_errors_witness :
  exists v,
    validate_password ascii_lower (lit "Tr0ub4dor&3XyZ") = Ok v
    /\ valid v = match errors v with [] => true | _ :: _ => false end.
Proof.
  destruct (valid_iff_no_errors ascii_lower (lit "Tr0ub4dor&3XyZ"))
    as [Hret Hinv].
  destruct Hret as [v Hv]; [discriminate|].
  exists v. split; [exact Hv | exact (Hinv v Hv)].
Defined.

(** C5.  The score of a returned verdict lies in [0,100]; and where rule 10
    or rule 11 deducts, the running total after the rule is
    max(0, total - 5) or max(0, total - 10), never negative, whatever the
    total was before. *)
Theorem score_bounds (lower : str -> str) (p : str) :
  (forall v, validate_password lower p = Ok v -> 0 <= score v <= 100)
  /\ (forall st,
        has_sequential (lower p) 1 || has_sequential p (-1) = true ->
        st_score (rule10 lower p st) = Z.max 0 (st_score st - 5)
        /\ 0 <= st_score (rule10 lower p st))
  /\ (forall st,
        walk_match (KEYBOARD_WALKS module_init) (lower p) = true ->
        st_score (rule11 lower module_init p st) = Z.max 0 (st_score st - 10)
        /\ 0 <= st_score (rule11 lower module_init p st)).
Proof.
  split; [|split].
  - intros v H. apply validate_Ok_inv in H as [_ ->].
    unfold rules_13_end, verdict_of, clamp; cbn [score st_score set_score]. lia.
  - intros st H. rewrite rule10_score, H. lia.
  - intros st H. rewrite rule11_score, H. lia.
Qed.

Lemma score_bounds_witness :
  exists v,
    validate_password ascii_lower (lit "qwerty") = Ok v
    /\ 0 <= score v <= 100
    /\ st_score (rule11 ascii_lower module_init (lit "qwerty")
                        {| st_errors := []; st_warnings := []; st_score := 5 |})
       = 0.
Proof.
  destruct (score_bounds ascii_lower (lit "qwerty")) as (Hv & _ & Hw).
  eexists. split; [vm_compute; reflexivity|].
  split.
  - apply Hv. vm_compute. reflexivity.
  - apply Hw. vm_compute. reflexivity.
Defined.

(** ** The running score *)

Ltac rule_score :=
  intros;
  cbv beta delta [rule1 rule2 rule3 rule4 rule5 rule6 rule7 rule8 rule9
                  rule13 rule14 rule15];
  repeat match goal with
         | |- context [negb ?b] => destruct b; cbn [negb]
         | |- context [if ?b then _ else _] => destruct b
         end;
  cbn [st_score set_score errors_append]; lia.

Section Scores.

Variable lower : str -> str.
Variable m : module_state.

Lemma rule1_score p st :
  st_score (rule1 p st)
  = st_score st + (if len p <? 12 then 0 else if 16 <=? len p then 20 else 10).
Proof. rule_score. Qed.

Lemma rule2_score p st : st_score (rule2 p st) = st_score st.
Proof. rule_score. Qed.

Lemma rule3_score p st :
  st_score (rule3 p st) = st_score st + (if re_search re_upper p then 10 else 0).
Proof. rule_score. Qed.

Lemma rule4_score p st :
  st_score (rule4 p st) = st_score st + (if re_search re_lower p then 10 else 0).
Proof. rule_score. Qed.

Lemma rule5_score p st :
  st_score (rule5 p st) = st_score st + (if re_search re_digit p then 10 else 0).
Proof. rule_score. Qed.

Lemma rule6_score p st :
  st_score (rule6 p st) = st_score st + (if re_search re_special p then 15 else 0).
Proof. rule_score. Qed.

Lemma rule7_score p st :
  st_score (rule7 p st)
  = st_score st
    + (if 2 <=? Z.of_nat (length (re_findall re_special p)) then 5 else 0).
Proof. rule_score. Qed.

Lemma rule8_score p st : st_score (rule8 lower m p st) = st_score st.
Proof. rule_score. Qed.

Lemma rule9_score p st :
  st_score (rule9 p st) = st_score st + (if re_search_repeat p then 0 else 5).
Proof. rule_score. Qed.

Lemma rule13_score p st : st_score (rule13 p st) = st_score st.
Proof. rule_score. Qed.

Lemma rule14_score p st : st_score (rule14 p st) = st_score st.
Proof. rule_score. Qed.

Lemma rule15_score e st :
  st_score (rule15 e st)
  = st_score st
    + (if bits_ltb e 50 then 0
       else if bits_geb e 80 then 25
       else if bits_geb e 60 then 15
       else 5).
Proof. rule_score. Qed.

End Scores.

Create Rewrite HintDb battery_score.

#[export] Hint Rewrite rule1_score rule2_score rule3_score rule4_score
  rule5_score rule6_score rule7_score rule8_score rule9_score rule10_score
  rule11_score rule13_score rule14_score rule15_score : battery_score.

(** ** Entropy *)

Lemma charset_size_sum (p : str) :
  charset_size p
  = 26 * Z.b2z (re_search re_lower p) + 26 * Z.b2z (re_search re_upper p)
    + 10 * Z.b2z (re_search re_digit p) + 32 * Z.b2z (re_search re_special p).
Proof.
  unfold charset_size.
  destruct (re_search re_lower p), (re_search re_upper p),
    (re_search re_digit p), (re_search re_special p); reflexivity.
Qed.

Lemma re_search_false (cls : char -> bool) (p : str) :
  re_search cls p = false <-> forall c, In c p -> cls c = false.
Proof.
  unfold re_search. induction p as [|x p IH]; simpl.
  - split; [intros _ c [] | reflexivity].
  - rewrite orb_false_iff, IH. split.
    + intros [Hx Hp] c [<- | Hc]; auto.
    + intros H. split; [apply H; now left | intros c Hc; apply H; now right].
Qed.

Lemma re_search_nonempty (cls : char -> bool) (p : str) :
  re_search cls p = true -> 1 <= len p.
Proof.
  destruct p; [discriminate|]. intros _. unfold len. simpl length. lia.
Qed.

(** The charset size is 0 exactly when no character of the password is
    in one of the four classes of the code: [[a-z]], [[A-Z]], [\d] and
    the special characters. *)
Lemma charset_size_zero_iff (p : str) :
  charset_size p = 0
  <-> forall c, In c p ->
        re_lower c = false /\ re_upper c = false
        /\ re_digit c = false /\ re_special c = false.
Proof.
  rewrite charset_size_sum. split.
  - intros H.
    assert (Hl : re_search re_lower p = false)
      by (destruct (re_search re_lower p), (re_search re_upper p),
            (re_search re_digit p), (re_search re_special p);
          simpl in H; try discriminate H; reflexivity).
    assert (Hu : re_search re_upper p = false)
      by (destruct (re_search re_lower p), (re_search re_upper p),
            (re_search re_digit p), (re_search re_special p);
          simpl in H; try discriminate H; reflexivity).
    assert (Hd : re_search re_digit p = false)
      by (destruct (re_search re_lower p), (re_search re_upper p),
            (re_search re_digit p), (re_search re_special p);
          simpl in H; try discriminate H; reflexivity).
    assert (Hs : re_search re_special p = false)
      by (destruct (re_search re_lower p), (re_search re_upper p),
            (re_search re_digit p), (re_search re_special p);
          simpl in H; try discriminate H; reflexivity).
    rewrite re_search_false in Hl, Hu, Hd, Hs. auto.
  - intros H.
    assert (Hl : re_search re_lower p = false)
      by (apply re_search_false; intros c Hc; apply (H c Hc)).
    assert (Hu : re_search re_upper p = false)
      by (apply re_search_false; intros c Hc; apply (H c Hc)).
    assert (Hd : re_search re_digit p = false)
      by (apply re_search_false; intros c Hc; apply (H c Hc)).
    assert (Hs : re_search re_special p = false)
      by (apply re_search_false; intros c Hc; apply (H c Hc)).
    rewrite Hl, Hu, Hd, Hs. reflexivity.
Qed.

(** The entropy is 0.0 exactly when the charset size is 0: otherwise the
    password has at least one character and the charset at least 10. *)
Lemma calculate_entropy_zero_iff (p : str) :
  bits_is_zero (calculate_entropy p) = true <-> charset_size p = 0.
Proof.
  unfold calculate_entropy. destruct (charset_size p =? 0) eqn:E.
  - apply Z.eqb_eq in E. simpl. tauto.
  - apply Z.eqb_neq in E. split; [|contradiction]. simpl.
    rewrite charset_size_sum in *.
    intros H. apply orb_true_iff in H as [H | H]; apply Z.eqb_eq in H.
    + assert (1 <= len p); [|lia].
      destruct (re_search re_lower p) eqn:E1;
        [now apply re_search_nonempty in E1|].
      destruct (re_search re_upper p) eqn:E2;
        [now apply re_search_nonempty in E2|].
      destruct (re_search re_digit p) eqn:E3;
        [now apply re_search_nonempty in E3|].
      destruct (re_search re_special p) eqn:E4;
        [now apply re_search_nonempty in E4|].
      simpl in E. congruence.
    + destruct (re_search re_lower p), (re_search re_upper p),
        (re_search re_digit p), (re_search re_special p);
        simpl in H; lia.
Qed.

(** *** The threshold tests, on the real value *)

Lemma ln_2_pos : (0 < ln 2)%R.
Proof. rewrite <- ln_1. apply ln_increasing; lra. Qed.

Lemma ln_IZR_pow (z n : Z) :
  0 < z -> 0 <= n -> ln (IZR (z ^ n)) = (IZR n * ln (IZR z))%R.
Proof.
  intros Hz Hn.
  replace (IZR (z ^ n)) with (IZR z ^ Z.to_nat n)%R
    by (rewrite pow_IZR, Z2Nat.id by assumption; reflexivity).
  rewrite ln_pow by (apply IZR_lt; assumption).
  rewrite INR_IZR_INZ, Z2Nat.id by assumption. reflexivity.
Qed.

(** n * log2 c < t  iff  c ^ n < 2 ^ t. *)
Lemma pow_lt_log2 (n c t : Z) :
  0 <= n -> 1 <= c -> 0 <= t ->
  c ^ n < 2 ^ t <-> (IZR n * Rlog 2 (IZR c) < IZR t)%R.
Proof.
  intros Hn Hc Ht.
  assert (Hcn : 0 < c ^ n) by (apply Z.pow_pos_nonneg; lia).
  assert (H2t : 0 < 2 ^ t) by (apply Z.pow_pos_nonneg; lia).
  pose proof ln_2_pos as L.
  assert (E : (IZR n * Rlog 2 (IZR c) < IZR t
               <-> ln (IZR (c ^ n)) < ln (IZR (2 ^ t)))%R).
  { rewrite !ln_IZR_pow by lia. unfold Rlog.
    replace (IZR n * (ln (IZR c) / ln 2))%R
      with ((IZR n * ln (IZR c)) / ln 2)%R by (field; lra).
    split; intros H.
    - apply (Rmult_lt_compat_r (ln 2)) in H; [|exact L].
      replace (IZR n * ln (IZR c) / ln 2 * ln 2)%R
        with (IZR n * ln (IZR c))%R in H by (field; lra).
      exact H.
    - apply (Rmult_lt_reg_r (ln 2)); [exact L|].
      replace (IZR n * ln (IZR c) / ln 2 * ln 2)%R
        with (IZR n * ln (IZR c))%R by (field; lra).
      exact H. }
  rewrite E. split; intros H.
  - apply ln_increasing; apply IZR_lt; lia.
  - apply lt_IZR. apply ln_lt_inv; try (apply IZR_lt; lia). exact H.
Qed.

Lemma bits_ltb_value (e : bits) (t : Z) :
  bits_wf e -> 0 <= t ->
  bits_ltb e t = true <-> (bits_value e < IZR t)%R.
Proof.
  destruct e as [|n c]; simpl.
  - intros _ _. rewrite Z.ltb_lt. split; [apply IZR_lt | apply lt_IZR].
  - intros [Hn Hc] Ht. rewrite Z.ltb_lt. now apply pow_lt_log2.
Qed.

Lemma bits_is_zero_value (e : bits) :
  bits_wf e -> bits_is_zero e = true <-> bits_value e = 0%R.
Proof.
  destruct e as [|n c]; simpl; [tauto|].
  intros [Hn Hc]. rewrite orb_true_iff, !Z.eqb_eq. unfold Rlog.
  pose proof ln_2_pos as L. split.
  - intros [-> | ->]; [lra|]. rewrite ln_1. field. lra.
  - intros H. apply Rmult_integral in H as [H | H].
    + left. now apply eq_IZR.
    + right. apply eq_IZR.
      assert (H' : ln (IZR c) = 0%R).
      { apply (Rmult_eq_reg_r (/ ln 2)); [|apply Rinv_neq_0_compat; lra].
        rewrite Rmult_0_l. exact H. }
      apply ln_inv; [apply IZR_lt; lia | lra | now rewrite ln_1].
Qed.

Lemma charset_size_range (p : str) : 0 <= charset_size p <= 94.
Proof.
  rewrite charset_size_sum.
  destruct (re_search re_lower p), (re_search re_upper p),
    (re_search re_digit p), (re_search re_special p); simpl; lia.
Qed.

Lemma calculate_entropy_wf (p : str) : bits_wf (calculate_entropy p).
Proof.
  unfold calculate_entropy. destruct (charset_size p =? 0) eqn:E; simpl; auto.
  apply Z.eqb_neq in E. pose proof (charset_size_range p).
  unfold len. lia.
Qed.

(** The value computed by [calculate_entropy], as a real number. *)
Lemma calculate_entropy_value (p : str) :
  (charset_size p = 0 -> bits_value (calculate_entropy p) = 0%R)
  /\ (charset_size p <> 0 ->
      bits_value (calculate_entropy p)
      = (IZR (len p) * Rlog 2 (IZR (charset_size p)))%R).
Proof.
  unfold calculate_entropy. split; intros H.
  - rewrite H. reflexivity.
  - apply Z.eqb_neq in H. rewrite H. reflexivity.
Qed.

(** The tests of rule 15 and the test for 0.0 decide what they stand
    for. *)
Lemma calculate_entropy_tests (p : str) (t : Z) :
  0 <= t ->
  (bits_ltb (calculate_entropy p) t = true
   <-> (bits_value (calculate_entropy p) < IZR t)%R)
  /\ (bits_geb (calculate_entropy p) t = true
      <-> (bits_value (calculate_entropy p) >= IZR t)%R)
  /\ (bits_is_zero (calculate_entropy p) = true
      <-> bits_value (calculate_entropy p) = 0%R).
Proof.
  intros Ht. pose proof (calculate_entropy_wf p) as W.
  pose proof (bits_ltb_value _ W Ht) as L.
  split; [exact L|]. split; [|now apply bits_is_zero_value].
  unfold bits_geb. rewrite negb_true_iff.
  destruct (bits_ltb (calculate_entropy p) t).
  - split; [discriminate|]. intros H.
    assert (bits_value (calculate_entropy p) < IZR t)%R by now apply L.
    lra.
  - split; [|reflexivity]. intros _. apply Rnot_lt_ge. intros H.
    apply L in H. discriminate.
Qed.

(** On ASCII, [\d] is [0-9]; the special class is the ASCII punctuation. *)
Lemma re_digit_ascii (c : char) :
  0 <= c < 128 -> (re_digit c = true <-> 48 <= c <= 57).
Proof.
  intros Hc. unfold re_digit, in_ranges, Nd_table. cbn [existsb fst snd].
  rewrite !orb_true_iff, !andb_true_iff, !Z.leb_le. lia.
Qed.

Lemma re_special_punctuation (c : char) :
  re_special c = true
  <-> 33 <= c <= 47 \/ 58 <= c <= 64 \/ 91 <= c <= 96 \/ 123 <= c <= 126.
Proof.
  unfold re_special. rewrite existsb_exists. split.
  - intros (x & Hin & E). apply Z.eqb_eq in E. subst x.
    vm_compute in Hin. intuition lia.
  - intros H. exists c. split; [|apply Z.eqb_refl].
    vm_compute. lia.
Qed.

(** C6.  The claim ties a zero entropy to the absence of ASCII letters,
    digits and special characters.  The pattern [\d] of the code also
    matches the decimal digits outside ASCII: for the one-character
    password U+0663 (ARABIC-INDIC DIGIT THREE) the charset size is 10 and
    the entropy 1 * log2(10), not 0.0, although the password contains no
    ASCII letter, no digit 0-9 and no special character. *)
Theorem unicode_digit_entropy :
  calculate_entropy [1635] = Log2 1 10
  /\ bits_is_zero (calculate_entropy [1635]) = false
  /\ forall c, In c [1635] ->
       ~ 97 <= c <= 122 /\ ~ 65 <= c <= 90 /\ ~ 48 <= c <= 57
       /\ ~ In c special_chars.
Proof.
  split; [reflexivity|]. split; [reflexivity|].
  intros c [<- | []]. repeat split; try lia.
  intros H. vm_compute in H. intuition discriminate.
Qed.

(** ** Strength label *)

(** C7.  The label of a returned verdict is Weak when the errors list is
    not empty; otherwise it is VeryStrong from 85, Strong from 65, Moderate
    from 45 and Weak below. *)
Theorem strength_label_by_score (lower : str -> str) (p : str) (v : Verdict) :
  validate_password lower p = Ok v ->
  (errors v <> [] -> strength v = Weak)
  /\ (errors v = [] ->
      (85 <= score v -> strength v = VeryStrong)
      /\ (65 <= score v < 85 -> strength v = Strong)
      /\ (45 <= score v < 65 -> strength v = Moderate)
      /\ (score v < 45 -> strength v = Weak)).
Proof.
  intros H. apply validate_Ok_inv in H as [_ ->].
  unfold rules_13_end, verdict_of; cbn [strength errors score].
  set (st := clamp _). unfold strength_of.
  destruct (st_errors st) as [|e es]; cbn [truthy].
  - split; [congruence|]. intros _.
    destruct (85 <=? st_score st) eqn:E1;
      [apply Z.leb_le in E1 | apply Z.leb_gt in E1].
    { repeat split; intros; try reflexivity; lia. }
    destruct (65 <=? st_score st) eqn:E2;
      [apply Z.leb_le in E2 | apply Z.leb_gt in E2].
    { repeat split; intros; try reflexivity; lia. }
    destruct (45 <=? st_score st) eqn:E3;
      [apply Z.leb_le in E3 | apply Z.leb_gt in E3].
    { repeat split; intros; try reflexivity; lia. }
    repeat split; intros; try reflexivity; lia.
  - split; [reflexivity | discriminate].
Qed.

Lemma strength_label_by_score_witness :
  exists v,
    validate_password ascii_lower (lit "Tr0ub4dor&3XyZ") = Ok v
    /\ errors v = [] /\ 65 <= score v < 85 /\ strength v = Strong.
Proof.
  pose (v := {| valid := true; score := 80; strength := Strong;
                entropy := Log2 14 94; errors := [];
                warnings := [WarnSequential] |}).
  assert (H : validate_password ascii_lower (lit "Tr0ub4dor&3XyZ") = Ok v)
    by (vm_compute; reflexivity).
  assert (Hs : 65 <= score v < 85) by (cbn; lia).
  destruct (strength_label_by_score _ _ H) as [_ Hl].
  destruct (Hl eq_refl) as (_ & Hstrong & _).
  exists v. split; [exact H|]. split; [reflexivity|].
  split; [exact Hs | exact (Hstrong Hs)].
Defined.

(** ** Rule 11 *)

(** C8.  Rule 11 fires exactly when some pattern of the keyboard-walk list,
    or its reverse, is a substring of the lowercased password.  When it
    fires it appends one warning and replaces the running score by
    max(0, score - 10); when it does not, it changes nothing.  A returned
    verdict carries the warning under the same condition, and at most
    once. *)
Theorem keyboard_walk_rule (lower : str -> str) (p : str) :
  (forall st,
     (walk_occurs (KEYBOARD_WALKS module_init) (lower p) ->
      rule11 lower module_init p st
      = {| st_errors := st_errors st;
           st_warnings := st_warnings st ++ [WarnKeyboardWalk];
           st_score := Z.max 0 (st_score st - 10) |})
     /\ (~ walk_occurs (KEYBOARD_WALKS module_init) (lower p) ->
         rule11 lower module_init p st = st))
  /\ forall v, validate_password lower p = Ok v ->
       (In WarnKeyboardWalk (warnings v)
        <-> walk_occurs (KEYBOARD_WALKS module_init) (lower p))
       /\ (count_occ warning_eq_dec (warnings v) WarnKeyboardWalk <= 1)%nat.
Proof.
  split.
  - intros st. unfold rule11. rewrite walk_loop_match.
    destruct (walk_match _ _) eqn:E.
    + split; [reflexivity|]. intros H. apply walk_match_occurs in E. tauto.
    + split; [|reflexivity]. intros H. apply walk_match_occurs in H. congruence.
  - intros v H. rewrite (validate_warnings _ _ _ H). unfold battery_warnings.
    rewrite <- walk_match_occurs. split.
    + rewrite !in_app_iff, !in_opt. intuition congruence.
    + rewrite !count_occ_app.
      destruct (_ || _), (walk_match _ _), (edge_digit p); simpl; lia.
Qed.

(** The password qwertyuiop contains both qwerty and qwertyu. *)
Lemma keyboard_walk_rule_witness :
  exists v,
    validate_password ascii_lower (lit "QwertyUiop") = Ok v
    /\ walk_occurs (KEYBOARD_WALKS module_init) (ascii_lower (lit "QwertyUiop"))
    /\ In WarnKeyboardWalk (warnings v)
    /\ (count_occ warning_eq_dec (warnings v) WarnKeyboardWalk <= 1)%nat.
Proof.
  assert (W : walk_occurs (KEYBOARD_WALKS module_init)
                (ascii_lower (lit "QwertyUiop"))).
  { exists (lit "qwertyu"). split; [vm_compute; tauto|].
    left. exists [], (lit "iop"). reflexivity. }
  destruct (keyboard_walk_rule ascii_lower (lit "QwertyUiop")) as [_ Hv].
  eexists. split; [vm_compute; reflexivity|].
  split; [exact W|].
  destruct (Hv _ eq_refl) as [Hin Hcount].
  split; [apply Hin; exact W | exact Hcount].
Defined.

(** ** Valid passwords *)

Section Valid.

Variable lower : str -> str.
Variable m : module_state.

(** What an empty error list says about the password. *)
Lemma no_errors_conditions (p : str) :
  battery_errors lower m p = [] ->
  (len p <? 12) = false
  /\ re_search re_upper p = true /\ re_search re_lower p = true
  /\ re_search re_digit p = true /\ re_search re_special p = true
  /\ re_search_repeat p = false
  /\ bits_ltb (calculate_entropy p) 50 = false.
Proof.
  unfold battery_errors. intros H.
  repeat match type of H with
         | _ ++ _ = [] => apply app_eq_nil in H; destruct H as [?H H]
         end.
  repeat match goal with
         | H : opt _ _ = [] |- _ => apply opt_nil in H
         | H : negb _ = false |- _ => apply negb_false_iff in H
         end.
  auto 10.
Qed.

Lemma four_classes_entropy (p : str) :
  re_search re_upper p = true -> re_search re_lower p = true ->
  re_search re_digit p = true -> re_search re_special p = true ->
  calculate_entropy p = Log2 (len p) 94.
Proof.
  intros Hu Hl Hd Hs. unfold calculate_entropy.
  rewrite charset_size_sum, Hu, Hl, Hd, Hs. reflexivity.
Qed.

(** 12 characters over a charset of 94 are worth more than 60 bits:
    94 ^ 12 >= 2 ^ 60. *)
Lemma four_classes_60_bits (n : Z) :
  12 <= n -> bits_geb (Log2 n 94) 60 = true.
Proof.
  intros Hn. unfold bits_geb, bits_ltb. apply negb_true_iff, Z.ltb_ge.
  apply Z.le_trans with (94 ^ 12); [vm_compute; discriminate|].
  apply Z.pow_le_mono_r; lia.
Qed.

(** Without errors the battery has granted at least 60 points: 10 for the
    length, 45 for the four classes, 5 for the absence of a repeated run,
    at most 15 deducted by rules 10 and 11, and at least 15 for an entropy
    of 60 bits or more. *)
Lemma no_errors_score (p : str) :
  battery_errors lower m p = [] ->
  60 <= st_score (rule15 (calculate_entropy p)
                    (rule14 p (rule13 p (after_rule12 lower m p)))).
Proof.
  intros H. apply no_errors_conditions in H
    as (Hlen & Hu & Hl & Hd & Hs & Hrep & Hent).
  assert (Hge : bits_geb (calculate_entropy p) 60 = true).
  { rewrite (four_classes_entropy _ Hu Hl Hd Hs).
    apply four_classes_60_bits. apply Z.ltb_ge in Hlen. exact Hlen. }
  autorewrite with battery_score. rewrite after_rule12_score.
  unfold rules_1_11. autorewrite with battery_score.
  cbn [init_state st_score].
  rewrite Hlen, Hu, Hl, Hd, Hs, Hrep, Hent, Hge.
  repeat match goal with
         | |- context [if ?b then _ else _] => destruct b
         end; lia.
Qed.

End Valid.

(** C10.  A verdict with valid = true has a score of at least 50, and its
    label is therefore not Weak. *)
Theorem valid_score_at_least_50 (lower : str -> str) (p : str) (v : Verdict) :
  validate_password lower p = Ok v ->
  valid v = true ->
  50 <= score v /\ strength v <> Weak.
Proof.
  intros H Hvalid.
  pose proof (validate_errors _ _ _ H) as He.
  apply validate_Ok_inv in H as [_ ->].
  unfold rules_13_end, verdict_of in *; cbn [valid score strength errors] in *.
  change (st_errors (clamp ?s)) with (st_errors s) in *.
  assert (Hnil : battery_errors lower module_init p = []).
  { rewrite <- He. destruct (st_errors _); [reflexivity | discriminate]. }
  pose proof (no_errors_score lower module_init p Hnil) as Hs.
  rewrite He, Hnil. unfold clamp; cbn [st_score set_score].
  set (s := st_score _) in *.
  split; [lia|].
  unfold strength_of; cbn [truthy].
  destruct (85 <=? _); [discriminate|].
  destruct (65 <=? _); [discriminate|].
  destruct (45 <=? _) eqn:E; [discriminate|].
  apply Z.leb_gt in E. lia.
Qed.

Lemma valid_score_at_least_50_witness :
  exists v,
    validate_password ascii_lower (lit "Tr0ub4dor&3XyZ") = Ok v
    /\ valid v = true /\ 50 <= score v /\ strength v <> Weak.
Proof.
  pose (v := {| valid := true; score := 80; strength := Strong;
                entropy := Log2 14 94; errors := [];
                warnings := [WarnSequential] |}).
  assert (H : validate_password ascii_lower (lit "Tr0ub4dor&3XyZ") = Ok v)
    by (vm_compute; reflexivity).
  exists v. split; [exact H|]. split; [reflexivity|].
  exact (valid_score_at_least_50 _ _ H eq_refl).
Defined.

(** ** What the patterns of rules 9 and 10 match *)

Lemma re_search_true (cls : char -> bool) (p : str) :
  re_search cls p = true <-> exists c, In c p /\ cls c = true.
Proof. unfold re_search. apply existsb_exists. Qed.

Lemma re_search_repeat_run (s : str) :
  re_search_repeat s = true <-> has_run3 s.
Proof.
  unfold has_run3. induction s as [|a t IH].
  - simpl. split; [discriminate|].
    intros (pre & c & post & E & _). destruct pre; discriminate.
  - destruct t as [|b [|c t]].
    + simpl. split; [discriminate|].
      intros (pre & x & post & E & _).
      apply (f_equal (@length char)) in E. rewrite length_app in E.
      simpl in E. lia.
    + simpl. split; [discriminate|].
      intros (pre & x & post & E & _).
      apply (f_equal (@length char)) in E. rewrite length_app in E.
      simpl in E. lia.
    + change (re_search_repeat (a :: b :: c :: t))
        with ((negb (a =? 10) && (a =? b) && (b =? c))
              || re_search_repeat (b :: c :: t)).
      rewrite orb_true_iff, IH, !andb_true_iff, negb_true_iff, Z.eqb_neq,
        !Z.eqb_eq.
      split.
      * intros [[[Hn ->] ->] | (pre & x & post & E & Hx)].
        -- exists [], c, t. split; [reflexivity | assumption].
        -- exists (a :: pre), x, post. split; [now rewrite E | assumption].
      * intros (pre & x & post & E & Hx). destruct pre as [|y pre].
        -- left. inversion E; subst. auto.
        -- right. inversion E; subst. exists pre, x, post. auto.
Qed.

Lemma has_sequential_short (s : str) (step : Z) :
  (length s < 3)%nat -> has_sequential s step = false.
Proof.
  intros H. unfold has_sequential.
  replace (length s - 2)%nat with 0%nat by lia. reflexivity.
Qed.

Lemma existsb_seq_shift (f : nat -> bool) (k : nat) :
  existsb f (seq 1 k) = existsb (fun i => f (S i)) (seq 0 k).
Proof.
  rewrite <- seq_shift. induction (seq 0 k) as [|x l IH]; simpl; congruence.
Qed.

(** The loop of [has_sequential], one position at a time. *)
Lemma has_sequential_cons (a b c : char) (t : str) (step : Z) :
  has_sequential (a :: b :: c :: t) step
  = ((b - a =? step) && (c - b =? step)) || has_sequential (b :: c :: t) step.
Proof.
  unfold has_sequential.
  replace (length (a :: b :: c :: t) - 2)%nat
    with (S (length (b :: c :: t) - 2)) by (simpl; lia).
  cbn [seq existsb]. rewrite existsb_seq_shift. reflexivity.
Qed.

Lemma has_sequential_run (s : str) (step : Z) :
  has_sequential s step = true <-> arith_run s step.
Proof.
  unfold arith_run. induction s as [|a t IH].
  - split; [discriminate|].
    intros (pre & x & post & E). destruct pre; discriminate.
  - destruct t as [|b [|c t]].
    + rewrite has_sequential_short by (simpl; lia). split; [discriminate|].
      intros (pre & x & post & E).
      apply (f_equal (@length char)) in E. rewrite length_app in E.
      simpl in E. lia.
    + rewrite has_sequential_short by (simpl; lia). split; [discriminate|].
      intros (pre & x & post & E).
      apply (f_equal (@length char)) in E. rewrite length_app in E.
      simpl in E. lia.
    + rewrite has_sequential_cons, orb_true_iff, IH, andb_true_iff, !Z.eqb_eq.
      split.
      * intros [[H1 H2] | (pre & x & post & E)].
        -- exists [], a, t. simpl. f_equal. f_equal; [lia | f_equal; lia].
        -- exists (a :: pre), x, post. now rewrite E.
      * intros (pre & x & post & E). destruct pre as [|y pre].
        -- left. inversion E; subst. lia.
        -- right. inversion E; subst. now exists pre, x, post.
Qed.

(** ** The messages of a verdict *)

Lemma Forall_opt {A} (P : A -> Prop) (b : bool) (x : A) :
  P x -> Forall P (opt b x).
Proof. destruct b; simpl; auto. Qed.

Lemma Forall_opt_app {A} (P : A -> Prop) (b : bool) (x : A) (l : list A) :
  P x -> Forall P l -> Forall P (opt b x ++ l).
Proof. destruct b; simpl; auto. Qed.

Lemma sorted_opt {A} (R : A -> A -> Prop) (b : bool) (x : A) :
  StronglySorted R (opt b x).
Proof. destruct b; simpl; repeat constructor. Qed.

Lemma sorted_opt_app {A} (R : A -> A -> Prop) (b : bool) (x : A) (l : list A) :
  StronglySorted R l -> Forall (R x) l -> StronglySorted R (opt b x ++ l).
Proof. destruct b; simpl; auto using SSorted_cons. Qed.

Lemma sorted_by_key_NoDup {A} (key : A -> Z) (l : list A) :
  StronglySorted (fun a b => key a < key b) l -> NoDup l.
Proof.
  induction 1 as [|a l Hs IH Hall]; constructor; [|assumption].
  intros Hin. rewrite Forall_forall in Hall. specialize (Hall a Hin). lia.
Qed.

Ltac sorted_battery :=
  repeat first
    [ apply sorted_opt_app
    | apply sorted_opt
    | apply Forall_opt_app
    | apply Forall_opt
    | progress cbn [error_rule warning_rule]
    | lia ].

Ltac in_battery H :=
  first [ rewrite (validate_errors _ _ _ H); unfold battery_errors
        | rewrite (validate_warnings _ _ _ H); unfold battery_warnings ];
  rewrite !in_app_iff, !in_opt.

(** X1.  The errors of a verdict come in the order of the rules that
    append them, each at most once. *)
Theorem errors_in_rule_order (lower : str -> str) (p : str) (v : Verdict) :
  validate_password lower p = Ok v ->
  StronglySorted (fun a b => error_rule a < error_rule b) (errors v)
  /\ NoDup (errors v).
Proof.
  intros H.
  assert (S : StronglySorted (fun a b => error_rule a < error_rule b)
                (errors v)).
  { rewrite (validate_errors _ _ _ H). unfold battery_errors.
    sorted_battery. }
  split; [exact S | exact (sorted_by_key_NoDup _ S)].
Qed.

Lemma errors_in_rule_order_witness :
  exists v,
    validate_password ascii_lower (lit "password") = Ok v
    /\ length (errors v) = 7%nat /\ NoDup (errors v).
Proof.
  pose (e := Log2 8 26).
  pose (v := {| valid := false; score := 15; strength := Weak; entropy := e;
                errors := [ErrMinLength; ErrUppercase; ErrDigit; ErrSpecial;
                           ErrCommon; ErrClasses; ErrEntropy e];
                warnings := [] |}).
  assert (H : validate_password ascii_lower (lit "password") = Ok v)
    by (vm_compute; reflexivity).
  exists v. split; [exact H|]. split; [reflexivity|].
  exact (proj2 (errors_in_rule_order _ _ H)).
Defined.

(** X2.  The warnings of a verdict come in the order of rules 10, 11 and
    12, each at most once: there are never more than three. *)
Theorem warnings_in_rule_order (lower : str -> str) (p : str) (v : Verdict) :
  validate_password lower p = Ok v ->
  StronglySorted (fun a b => warning_rule a < warning_rule b) (warnings v)
  /\ NoDup (warnings v)
  /\ (length (warnings v) <= 3)%nat.
Proof.
  intros H.
  assert (S : StronglySorted (fun a b => warning_rule a < warning_rule b)
                (warnings v)).
  { rewrite (validate_warnings _ _ _ H). unfold battery_warnings.
    sorted_battery. }
  split; [exact S|]. split; [exact (sorted_by_key_NoDup _ S)|].
  rewrite (validate_warnings _ _ _ H). unfold battery_warnings.
  rewrite !length_app.
  destruct (_ || _), (walk_match _ _), (edge_digit p); simpl; lia.
Qed.

Lemma warnings_in_rule_order_witness :
  exists v,
    validate_password ascii_lower (lit "1qwerty-abc-9") = Ok v
    /\ warnings v = [WarnSequential; WarnKeyboardWalk; WarnEdgeDigit]
    /\ NoDup (warnings v).
Proof.
  destruct (validate_password ascii_lower (lit "1qwerty-abc-9")) as [v|e] eqn:H;
    [|vm_compute in H; discriminate H].
  exists v. split; [reflexivity|]. split.
  - vm_compute in H. injection H as <-. reflexivity.
  - exact (proj1 (proj2 (warnings_in_rule_order _ _ H))).
Defined.

(** X3.  The minimum-length error is reported exactly for passwords of
    fewer than 12 characters, the maximum-length error exactly for those
    of more than 128; no verdict carries both. *)
Theorem length_errors (lower : str -> str) (p : str) (v : Verdict) :
  validate_password lower p = Ok v ->
  (In ErrMinLength (errors v) <-> (length p < 12)%nat)
  /\ (In ErrMaxLength (errors v) <-> (128 < length p)%nat)
  /\ ~ (In ErrMinLength (errors v) /\ In ErrMaxLength (errors v)).
Proof.
  intros H.
  assert (A : In ErrMinLength (errors v) <-> (length p < 12)%nat).
  { in_battery H. rewrite Z.ltb_lt. unfold len.
    split; [intros [[E _] | R]; [lia | intuition congruence]
           | intros L; left; split; [lia | reflexivity]]. }
  assert (B : In ErrMaxLength (errors v) <-> (128 < length p)%nat).
  { in_battery H. rewrite Z.ltb_lt. unfold len.
    split; [intros [L | [[E _] | R]];
              [intuition congruence | lia | intuition congruence]
           | intros L; right; left; split; [lia | reflexivity]]. }
  split; [exact A|]. split; [exact B|].
  rewrite A, B. lia.
Qed.

Lemma length_errors_witness :
  exists v,
    validate_password ascii_lower (lit "password") = Ok v
    /\ In ErrMinLength (errors v).
Proof.
  destruct (validate_password ascii_lower (lit "password")) as [v|e] eqn:H;
    [|vm_compute in H; discriminate H].
  exists v. split; [reflexivity|].
  apply (proj1 (length_errors _ _ H)). simpl. lia.
Defined.

Lemma re_search_negb_false (cls : char -> bool) (p : str) :
  negb (re_search cls p) = true <-> forall c, In c p -> cls c = false.
Proof. rewrite negb_true_iff. apply re_search_false. Qed.

Lemma re_lower_range (c : char) : re_lower c = true <-> 97 <= c <= 122.
Proof. unfold re_lower. rewrite andb_true_iff, !Z.leb_le. tauto. Qed.

Lemma re_upper_range (c : char) : re_upper c = true <-> 65 <= c <= 90.
Proof. unfold re_upper. rewrite andb_true_iff, !Z.leb_le. tauto. Qed.

Lemma re_special_In (c : char) : re_special c = true <-> In c special_chars.
Proof.
  unfold re_special. rewrite existsb_exists. split.
  - intros (x & Hin & E). apply Z.eqb_eq in E. now subst.
  - intros H. exists c. split; [assumption | apply Z.eqb_refl].
Qed.

Lemma not_true_false (b : bool) : b = false <-> ~ b = true.
Proof. destruct b; split; congruence. Qed.

(** X4.  What the errors of rules 3 to 6, 8 and 13 say about the
    characters: no letter A-Z, no letter a-z, no character matched by \d,
    none of the 32 special characters, the lowercased password in the
    blacklist, some whitespace character. *)
Theorem character_errors (lower : str -> str) (p : str) (v : Verdict) :
  validate_password lower p = Ok v ->
  (In ErrUppercase (errors v) <-> forall c, In c p -> ~ 65 <= c <= 90)
  /\ (In ErrLowercase (errors v) <-> forall c, In c p -> ~ 97 <= c <= 122)
  /\ (In ErrDigit (errors v) <-> forall c, In c p -> re_digit c = false)
  /\ (In ErrSpecial (errors v) <-> forall c, In c p -> ~ In c special_chars)
  /\ (In ErrCommon (errors v)
      <-> In (lower p) (COMMON_PASSWORDS module_init))
  /\ (In ErrWhitespace (errors v) <-> exists c, In c p /\ re_space c = true).
Proof.
  intros H. repeat split.
  - in_battery H. intros [R | [R | [[E _] | R]]]; try intuition congruence.
    rewrite re_search_negb_false in E. intros c Hc.
    rewrite <- re_upper_range. apply not_true_false. auto.
  - intros N. in_battery H. right; right; left. split; [|reflexivity].
    apply re_search_negb_false. intros c Hc.
    apply not_true_false. rewrite re_upper_range. auto.
  - in_battery H.
    intros [R | [R | [R | [[E _] | R]]]]; try intuition congruence.
    rewrite re_search_negb_false in E. intros c Hc.
    rewrite <- re_lower_range. apply not_true_false. auto.
  - intros N. in_battery H. right; right; right; left. split; [|reflexivity].
    apply re_search_negb_false. intros c Hc.
    apply not_true_false. rewrite re_lower_range. auto.
  - in_battery H.
    intros [R | [R | [R | [R | [[E _] | R]]]]]; try intuition congruence.
    now rewrite re_search_negb_false in E.
  - intros N. in_battery H. do 4 right; left. split; [|reflexivity].
    now apply re_search_negb_false.
  - in_battery H.
    intros [R | [R | [R | [R | [R | [[E _] | R]]]]]]; try intuition congruence.
    rewrite re_search_negb_false in E. intros c Hc.
    rewrite <- re_special_In. apply not_true_false. auto.
  - intros N. in_battery H. do 5 right; left. split; [|reflexivity].
    apply re_search_negb_false. intros c Hc.
    apply not_true_false. rewrite re_special_In. auto.
  - in_battery H.
    intros [R | [R | [R | [R | [R | [R | [[E _] | R]]]]]]];
      try intuition congruence.
    now apply str_in_In.
  - intros N. in_battery H. do 6 right; left. split; [|reflexivity].
    now apply str_in_In.
  - in_battery H.
    intros [R | [R | [R | [R | [R | [R | [R | [R | [[E _] | R]]]]]]]]];
      try intuition congruence.
    now apply re_search_true.
  - intros N. in_battery H. do 8 right; left. split; [|reflexivity].
    now apply re_search_true.
Qed.

Lemma character_errors_witness :
  exists v,
    validate_password ascii_lower (lit "password") = Ok v
    /\ In ErrCommon (errors v).
Proof.
  destruct (validate_password ascii_lower (lit "password")) as [v|e] eqn:H;
    [|vm_compute in H; discriminate H].
  exists v. split; [reflexivity|].
  apply (proj1 (proj2 (proj2 (proj2 (proj2 (character_errors _ _ H)))))).
  vm_compute. tauto.
Defined.

(** X5.  The repeated-run error is reported exactly when some character
    other than the newline occurs three times in a row. *)
Theorem repeated_run_error (lower : str -> str) (p : str) (v : Verdict) :
  validate_password lower p = Ok v ->
  (In ErrRepeated (errors v) <-> has_run3 p).
Proof.
  intros H. rewrite <- re_search_repeat_run. in_battery H. split.
  - intros [R | [R | [R | [R | [R | [R | [R | [[E _] | R]]]]]]]];
      try intuition congruence.
  - intros E. do 7 right; left. split; [assumption | reflexivity].
Qed.

Lemma repeated_run_error_witness :
  exists v,
    validate_password ascii_lower (lit "Aaaaaaaaaaaa1!") = Ok v
    /\ In ErrRepeated (errors v).
Proof.
  destruct (validate_password ascii_lower (lit "Aaaaaaaaaaaa1!")) as [v|e] eqn:H;
    [|vm_compute in H; discriminate H].
  exists v. split; [reflexivity|].
  apply (repeated_run_error _ _ H).
  exists (lit "A"), 97, (lit "aaaaaaaa1!"). split; [reflexivity | lia].
Defined.

(** X6.  The sequential warning is given exactly when the lowercased
    password has three consecutive characters going up by one code point
    each, or the password itself three going down by one. *)
Theorem sequential_warning (lower : str -> str) (p : str) (v : Verdict) :
  validate_password lower p = Ok v ->
  (In WarnSequential (warnings v)
   <-> arith_run (lower p) 1 \/ arith_run p (-1)).
Proof.
  intros H. rewrite <- !has_sequential_run, <- orb_true_iff.
  in_battery H. split.
  - intros [[E _] | [R | R]]; try intuition congruence.
  - intros E. left. split; [assumption | reflexivity].
Qed.

Lemma sequential_warning_witness :
  exists v,
    validate_password ascii_lower (lit "Tr0ub4dor&3XyZ") = Ok v
    /\ In WarnSequential (warnings v).
Proof.
  destruct (validate_password ascii_lower (lit "Tr0ub4dor&3XyZ")) as [v|e] eqn:H;
    [|vm_compute in H; discriminate H].
  exists v. split; [reflexivity|].
  apply (sequential_warning _ _ H). left.
  exists (lit "tr0ub4dor&3"), 120, []. reflexivity.
Defined.

(** X7.  The edge-digit warning is given exactly when the first or the
    last character of the password is a digit in the sense of
    [str.isdigit]. *)
Theorem edge_digit_warning (lower : str -> str) (p : str) (v : Verdict) :
  validate_password lower p = Ok v ->
  (In WarnEdgeDigit (warnings v)
   <-> exists c, isdigit c = true
                 /\ ((exists t, p = c :: t) \/ (exists t, p = t ++ [c]))).
Proof.
  intros H. pose proof (validate_Ok_inv _ _ _ H) as [Hp _].
  in_battery H. unfold edge_digit. split.
  - intros [R | [R | [E _]]]; try intuition congruence.
    apply orb_true_iff in E as [E | E].
    + exists (hd 0 p). split; [assumption|]. left.
      destruct p as [|c t]; [congruence | now exists t].
    + exists (last p 0). split; [assumption|]. right.
      exists (removelast p). now apply app_removelast_last.
  - intros (c & Hc & [[t ->] | [t ->]]); right; right;
      (split; [|reflexivity]); apply orb_true_iff.
    + left. exact Hc.
    + right. now rewrite last_last.
Qed.

Lemma edge_digit_warning_witness :
  exists v,
    validate_password ascii_lower (lit "qwerty-abc-9") = Ok v
    /\ In WarnEdgeDigit (warnings v).
Proof.
  destruct (validate_password ascii_lower (lit "qwerty-abc-9")) as [v|e] eqn:H;
    [|vm_compute in H; discriminate H].
  exists v. split; [reflexivity|].
  apply (edge_digit_warning _ _ H).
  exists 57. split; [reflexivity|]. right. exists (lit "qwerty-abc-"). reflexivity.
Defined.

(** ** Which rules decide validity *)

Section Validity.

Variable lower : str -> str.
Variable m : module_state.

Lemma validate_valid p v :
  validate_password_in lower m p = Ok v ->
  (valid v = true <-> battery_errors lower m p = []).
Proof.
  intros H. rewrite <- (validate_errors _ _ _ H).
  apply validate_Ok_inv in H as [_ ->].
  unfold rules_13_end, verdict_of; cbn [valid errors].
  destruct (st_errors _); simpl; split; congruence.
Qed.

(** Each error, by the test of its rule. *)
Lemma errors_by_test p v :
  validate_password_in lower m p = Ok v ->
  (In ErrMinLength (errors v) <-> (len p <? 12) = true)
  /\ (In ErrMaxLength (errors v) <-> (128 <? len p) = true)
  /\ (In ErrUppercase (errors v) <-> re_search re_upper p = false)
  /\ (In ErrLowercase (errors v) <-> re_search re_lower p = false)
  /\ (In ErrDigit (errors v) <-> re_search re_digit p = false)
  /\ (In ErrSpecial (errors v) <-> re_search re_special p = false)
  /\ (In ErrCommon (errors v)
      <-> str_in (lower p) (COMMON_PASSWORDS m) = true)
  /\ (In ErrRepeated (errors v) <-> re_search_repeat p = true)
  /\ (In ErrWhitespace (errors v) <-> re_search re_space p = true)
  /\ (In ErrClasses (errors v) <-> classes p = 1)
  /\ (forall e, In (ErrEntropy e) (errors v)
                <-> bits_ltb (calculate_entropy p) 50 = true
                    /\ e = calculate_entropy p).
Proof.
  intros H. rewrite (validate_errors _ _ _ H). unfold battery_errors.
  repeat split; intros; revert H0 || idtac;
    rewrite !in_app_iff, !in_opt, <- ?negb_true_iff, ?Z.eqb_eq;
    intuition congruence.
Qed.

Lemma four_classes_50_bits (n : Z) :
  12 <= n -> bits_ltb (Log2 n 94) 50 = false.
Proof.
  intros Hn. unfold bits_ltb. apply Z.ltb_ge.
  apply Z.le_trans with (94 ^ 12); [vm_compute; discriminate|].
  apply Z.pow_le_mono_r; lia.
Qed.

(** The verdict of rules 14 and 15 follows from the length and the four
    classes: with 12 characters and all four classes neither can fire. *)
Lemma rules_14_15_silent p :
  (len p <? 12) = false ->
  re_search re_upper p = true -> re_search re_lower p = true ->
  re_search re_digit p = true -> re_search re_special p = true ->
  (classes p =? 1) = false /\ bits_ltb (calculate_entropy p) 50 = false.
Proof.
  intros Hlen Hu Hl Hd Hs. split.
  - rewrite classes_count, Hu, Hl, Hd, Hs. reflexivity.
  - rewrite (four_classes_entropy _ Hu Hl Hd Hs).
    apply four_classes_50_bits. now apply Z.ltb_ge in Hlen.
Qed.

Lemma no_errors_iff p :
  battery_errors lower m p = []
  <-> (len p <? 12) = false /\ (128 <? len p) = false
      /\ re_search re_upper p = true /\ re_search re_lower p = true
      /\ re_search re_digit p = true /\ re_search re_special p = true
      /\ str_in (lower p) (COMMON_PASSWORDS m) = false
      /\ re_search_repeat p = false
      /\ re_search re_space p = false.
Proof.
  split.
  - unfold battery_errors. intros H.
    repeat match type of H with
           | _ ++ _ = [] => apply app_eq_nil in H; destruct H as [?H H]
           end.
    repeat match goal with
           | H : opt _ _ = [] |- _ => apply opt_nil in H
           | H : negb _ = false |- _ => apply negb_false_iff in H
           end.
    auto 12.
  - intros (H1 & H2 & Hu & Hl & Hd & Hs & Hc & Hr & Hw).
    destruct (rules_14_15_silent _ H1 Hu Hl Hd Hs) as [H14 H15].
    unfold battery_errors.
    rewrite H1, H2, Hu, Hl, Hd, Hs, Hc, Hr, Hw, H14, H15. reflexivity.
Qed.

End Validity.

(** X8.  A verdict is valid exactly when the password has 12 to 128
    characters, a letter A-Z, a letter a-z, a character matched by \d and
    a special character, its lowercased form is not in the blacklist, no
    character other than the newline occurs three times in a row and it has
    no whitespace.  Rules 14 and 15 add nothing to this. *)
Theorem valid_iff_requirements (lower : str -> str) (p : str) (v : Verdict) :
  validate_password lower p = Ok v ->
  (valid v = true
   <-> (12 <= length p <= 128)%nat
       /\ (exists c, In c p /\ 65 <= c <= 90)
       /\ (exists c, In c p /\ 97 <= c <= 122)
       /\ (exists c, In c p /\ re_digit c = true)
       /\ (exists c, In c p /\ In c special_chars)
       /\ ~ In (lower p) (COMMON_PASSWORDS module_init)
       /\ ~ has_run3 p
       /\ (forall c, In c p -> re_space c = false)).
Proof.
  intros H. rewrite (validate_valid _ _ _ H), no_errors_iff.
  rewrite Z.ltb_ge, Z.ltb_ge, !re_search_true, re_search_false.
  rewrite <- re_search_repeat_run, <- str_in_In, !not_true_false.
  unfold len.
  setoid_rewrite re_upper_range. setoid_rewrite re_lower_range.
  setoid_rewrite re_special_In.
  intuition lia.
Qed.

Lemma valid_iff_requirements_witness :
  exists v,
    validate_password ascii_lower (lit "Tr0ub4dor&3XyZ") = Ok v
    /\ valid v = true /\ ~ has_run3 (lit "Tr0ub4dor&3XyZ").
Proof.
  destruct (validate_password ascii_lower (lit "Tr0ub4dor&3XyZ")) as [v|e] eqn:H;
    [|vm_compute in H; discriminate H].
  exists v.
  assert (V : valid v = true)
    by (vm_compute in H; injection H as <-; reflexivity).
  split; [reflexivity|]. split; [exact V|].
  apply (proj1 (valid_iff_requirements _ _ H) V).
Defined.

(** X9.  When the class-diversity error is reported, exactly three of the
    four missing-class errors are reported with it. *)
Theorem diversity_error_redundant (lower : str -> str) (p : str) (v : Verdict) :
  validate_password lower p = Ok v ->
  In ErrClasses (errors v) ->
  let U := In ErrUppercase (errors v) in
  let L := In ErrLowercase (errors v) in
  let D := In ErrDigit (errors v) in
  let S := In ErrSpecial (errors v) in
  (~ U /\ L /\ D /\ S) \/ (U /\ ~ L /\ D /\ S)
  \/ (U /\ L /\ ~ D /\ S) \/ (U /\ L /\ D /\ ~ S).
Proof.
  intros H. cbv zeta.
  destruct (errors_by_test _ _ _ H)
    as (_ & _ & -> & -> & -> & -> & _ & _ & _ & -> & _).
  rewrite classes_count.
  destruct (re_search re_upper p), (re_search re_lower p),
    (re_search re_digit p), (re_search re_special p); simpl; intros E;
    try discriminate E; intuition congruence.
Qed.

Lemma diversity_error_redundant_witness :
  exists v,
    validate_password ascii_lower (lit "password") = Ok v
    /\ In ErrUppercase (errors v) /\ ~ In ErrLowercase (errors v).
Proof.
  destruct (validate_password ascii_lower (lit "password")) as [v|e] eqn:H;
    [|vm_compute in H; discriminate H].
  exists v. split; [reflexivity|].
  assert (C : In ErrClasses (errors v)).
  { vm_compute in H. injection H as <-. simpl. tauto. }
  assert (Lw : ~ In ErrLowercase (errors v)).
  { vm_compute in H. injection H as <-. simpl. intuition discriminate. }
  destruct (diversity_error_redundant _ _ H C)
    as [(_ & L & _) | [(U & N & _) | [(_ & L & _) | (_ & L & _)]]];
    try contradiction.
  split; assumption.
Defined.

(** X10.  The entropy error never comes alone: a verdict that carries it
    also carries the minimum-length error or one of the four missing-class
    errors. *)
Theorem entropy_error_not_alone (lower : str -> str) (p : str) (v : Verdict)
    (e : bits) :
  validate_password lower p = Ok v ->
  In (ErrEntropy e) (errors v) ->
  In ErrMinLength (errors v) \/ In ErrUppercase (errors v)
  \/ In ErrLowercase (errors v) \/ In ErrDigit (errors v)
  \/ In ErrSpecial (errors v).
Proof.
  intros H.
  destruct (errors_by_test _ _ _ H)
    as (-> & _ & -> & -> & -> & -> & _ & _ & _ & _ & He).
  rewrite He. intros [E _].
  destruct (len p <? 12) eqn:H1; [now left|].
  destruct (re_search re_upper p) eqn:Hu; [|now right; left].
  destruct (re_search re_lower p) eqn:Hl; [|now right; right; left].
  destruct (re_search re_digit p) eqn:Hd; [|now right; right; right; left].
  destruct (re_search re_special p) eqn:Hs; [|now right; right; right; right].
  destruct (rules_14_15_silent _ H1 Hu Hl Hd Hs) as [_ N]. congruence.
Qed.

Lemma entropy_error_not_alone_witness :
  exists v,
    validate_password ascii_lower (lit "password") = Ok v
    /\ (In ErrMinLength (errors v) \/ In ErrUppercase (errors v)
        \/ In ErrLowercase (errors v) \/ In ErrDigit (errors v)
        \/ In ErrSpecial (errors v)).
Proof.
  destruct (validate_password ascii_lower (lit "password")) as [v|e] eqn:H;
    [|vm_compute in H; discriminate H].
  exists v. split; [reflexivity|].
  apply (@entropy_error_not_alone ascii_lower (lit "password") v
           (Log2 8 26) H).
  vm_compute in H. injection H as <-. simpl. tauto.
Defined.

Lemma common_passwords_short :
  Forall (fun w => (length w <= 11)%nat) (COMMON_PASSWORDS module_init).
Proof. repeat constructor. Qed.

(** X11.  If lowercasing does not shorten the password, as [str.lower]
    never does, every password that gets the blacklist error gets the
    minimum-length error too: the longest blacklisted password has 11
    characters. *)
Theorem common_error_implies_min_length (lower : str -> str) (p : str)
    (v : Verdict) :
  (length p <= length (lower p))%nat ->
  validate_password lower p = Ok v ->
  In ErrCommon (errors v) -> In ErrMinLength (errors v).
Proof.
  intros Hlen H.
  destruct (errors_by_test _ _ _ H) as (-> & _ & _ & _ & _ & _ & -> & _).
  rewrite str_in_In. intros Hin.
  pose proof common_passwords_short as F. rewrite Forall_forall in F.
  specialize (F _ Hin). apply Z.ltb_lt. unfold len. lia.
Qed.

Lemma common_error_implies_min_length_witness :
  exists v,
    validate_password ascii_lower (lit "PassWord123") = Ok v
    /\ In ErrMinLength (errors v).
Proof.
  destruct (validate_password ascii_lower (lit "PassWord123")) as [v|e] eqn:H;
    [|vm_compute in H; discriminate H].
  exists v. split; [reflexivity|].
  apply (common_error_implies_min_length ascii_lower (lit "PassWord123")).
  - vm_compute. lia.
  - exact H.
  - vm_compute in H. injection H as <-. simpl. tauto.
Defined.

(** ** The points of a verdict *)

Section Points.

Variable lower : str -> str.
Variable m : module_state.

(** Rules 1 to 9 only add points: between 0 and 75 of them, in steps
    of 5. *)
Lemma score_after_rule9 (p : str) :
  let s := st_score (rule9 p (rule8 lower m p (rule7 p (rule6 p (rule5 p
             (rule4 p (rule3 p (rule2 p (rule1 p init_state))))))))) in
  0 <= s <= 75 /\ s mod 5 = 0.
Proof.
  cbv zeta. autorewrite with battery_score. cbn [init_state st_score].
  repeat match goal with
         | |- context [if ?b then _ else _] => destruct b
         end; split; (lia || reflexivity).
Qed.

Lemma rules_1_11_score_range (p : str) :
  0 <= st_score (rules_1_11 lower m p) <= 75
  /\ st_score (rules_1_11 lower m p) mod 5 = 0.
Proof.
  unfold rules_1_11. rewrite rule11_score, rule10_score.
  pose proof (score_after_rule9 p) as H. cbv zeta in H.
  set (s := st_score (rule9 _ _)) in *.
  destruct H as [R M].
  assert (M5 : Z.max 0 (s - 5) mod 5 = 0).
  { destruct (Z.max_spec 0 (s - 5)) as [[_ ->] | [_ ->]]; [|reflexivity].
    replace (s - 5) with (s + (-1) * 5) by lia.
    now rewrite Z.mod_add by lia. }
  destruct (_ || _).
  - set (t := Z.max 0 (s - 5)) in *.
    assert (Rt : 0 <= t <= 75) by (subst t; lia).
    destruct (walk_match _ _); [|split; assumption].
    split; [lia|].
    destruct (Z.max_spec 0 (t - 10)) as [[_ ->] | [_ ->]]; [|reflexivity].
    replace (t - 10) with (t + (-2) * 5) by lia.
    now rewrite Z.mod_add by lia.
  - destruct (walk_match _ _); [|split; assumption].
    split; [lia|].
    destruct (Z.max_spec 0 (s - 10)) as [[_ ->] | [_ ->]]; [|reflexivity].
    replace (s - 10) with (s + (-2) * 5) by lia.
    now rewrite Z.mod_add by lia.
Qed.

Lemma entropy_points_range (e : bits) :
  0 <= entropy_points e <= 25 /\ entropy_points e mod 5 = 0.
Proof.
  unfold entropy_points.
  destruct (bits_ltb e 50), (bits_geb e 80), (bits_geb e 60);
    split; (lia || reflexivity).
Qed.

(** The score of a verdict before and after the clamp. *)
Lemma validate_score (p : str) (v : Verdict) :
  validate_password_in lower m p = Ok v ->
  score v = st_score (rules_1_11 lower m p)
            + entropy_points (calculate_entropy p).
Proof.
  intros H. apply validate_Ok_inv in H as [_ ->].
  unfold rules_13_end, verdict_of, clamp; cbn [score st_score set_score].
  rewrite rule15_score, rule14_score, rule13_score, after_rule12_score.
  fold (entropy_points (calculate_entropy p)).
  pose proof (rules_1_11_score_range p) as [R _].
  pose proof (entropy_points_range (calculate_entropy p)) as [E _].
  lia.
Qed.

End Points.

(** X12.  The clamp never changes anything: rules 1 to 11 leave between 0
    and 75 points, rule 15 adds between 0 and 25, and the score of the
    verdict is the plain sum of the two. *)
Theorem score_is_plain_sum (lower : str -> str) (p : str) (v : Verdict) :
  validate_password lower p = Ok v ->
  score v = st_score (rules_1_11 lower module_init p)
            + entropy_points (calculate_entropy p)
  /\ 0 <= st_score (rules_1_11 lower module_init p) <= 75
  /\ 0 <= entropy_points (calculate_entropy p) <= 25.
Proof.
  intros H. split; [exact (validate_score _ _ _ H)|].
  split; [apply rules_1_11_score_range | apply entropy_points_range].
Qed.

Lemma score_is_plain_sum_witness :
  exists v,
    validate_password ascii_lower (lit "Tr0ub4dor&3XyZ") = Ok v
    /\ score v = 55 + 25.
Proof.
  destruct (validate_password ascii_lower (lit "Tr0ub4dor&3XyZ")) as [v|e] eqn:H;
    [|vm_compute in H; discriminate H].
  exists v. split; [reflexivity|].
  rewrite (proj1 (score_is_plain_sum _ _ H)). vm_compute. reflexivity.
Defined.

(** X13.  The score of a verdict is a multiple of 5. *)
Theorem score_multiple_of_5 (lower : str -> str) (p : str) (v : Verdict) :
  validate_password lower p = Ok v ->
  exists k, 0 <= k <= 20 /\ score v = 5 * k.
Proof.
  intros H. rewrite (validate_score _ _ _ H).
  pose proof (rules_1_11_score_range lower module_init p) as [R M].
  pose proof (entropy_points_range (calculate_entropy p)) as [E N].
  set (a := st_score _) in *. set (b := entropy_points _) in *.
  exists (a / 5 + b / 5).
  pose proof (Z.div_mod a 5). pose proof (Z.div_mod b 5). lia.
Qed.

Lemma score_multiple_of_5_witness :
  exists v,
    validate_password ascii_lower (lit "password") = Ok v
    /\ exists k, 0 <= k <= 20 /\ score v = 5 * k.
Proof.
  destruct (validate_password ascii_lower (lit "password")) as [v|e] eqn:H;
    [|vm_compute in H; discriminate H].
  exists v. split; [reflexivity|].
  exact (score_multiple_of_5 _ _ H).
Defined.

(** With all four classes, 80 bits are reached from 13 characters on:
    94 ^ 12 < 2 ^ 80 <= 94 ^ 13. *)
Lemma four_classes_80_bits (n : Z) :
  12 <= n -> bits_geb (Log2 n 94) 80 = (13 <=? n).
Proof.
  intros Hn. unfold bits_geb, bits_ltb.
  destruct (13 <=? n) eqn:E.
  - apply Z.leb_le in E. apply negb_true_iff, Z.ltb_ge.
    apply Z.le_trans with (94 ^ 13); [vm_compute; discriminate|].
    apply Z.pow_le_mono_r; lia.
  - apply Z.leb_gt in E. replace n with 12 by lia. reflexivity.
Qed.

(** X14.  The score of a valid password: 75 points, 10 more from 13
    characters on and 10 more from 16 on, 5 more for a second special
    character, 5 fewer for a sequential run and 10 fewer for a keyboard
    walk. *)
Theorem valid_score_formula (lower : str -> str) (p : str) (v : Verdict) :
  validate_password lower p = Ok v ->
  valid v = true ->
  score v
  = 75
    + (if 13 <=? len p then 10 else 0)
    + (if 16 <=? len p then 10 else 0)
    + (if 2 <=? Z.of_nat (length (re_findall re_special p)) then 5 else 0)
    - (if has_sequential (lower p) 1 || has_sequential p (-1) then 5 else 0)
    - (if walk_match (KEYBOARD_WALKS module_init) (lower p) then 10 else 0).
Proof.
  intros H V. rewrite (validate_score _ _ _ H).
  apply (validate_valid _ _ _ H) in V.
  apply no_errors_conditions in V as (Hlen & Hu & Hl & Hd & Hs & Hrep & Hent).
  assert (L : 12 <= len p) by now apply Z.ltb_ge in Hlen.
  unfold entropy_points.
  rewrite (four_classes_entropy _ Hu Hl Hd Hs).
  rewrite (four_classes_50_bits L), (four_classes_80_bits L),
    (four_classes_60_bits L).
  unfold rules_1_11. autorewrite with battery_score.
  cbn [init_state st_score]. rewrite Hlen, Hu, Hl, Hd, Hs, Hrep.
  destruct (13 <=? len p) eqn:E13; destruct (16 <=? len p) eqn:E16;
    try (apply Z.leb_le in E16; apply Z.leb_gt in E13; lia);
    destruct (2 <=? _), (_ || _), (walk_match _ _); lia.
Qed.

Lemma valid_score_formula_witness :
  exists v,
    validate_password ascii_lower (lit "Tr0ub4dor&3XyZ") = Ok v
    /\ score v = 75 + 10 + 0 + 0 - 5 - 0.
Proof.
  destruct (validate_password ascii_lower (lit "Tr0ub4dor&3XyZ")) as [v|e] eqn:H;
    [|vm_compute in H; discriminate H].
  exists v. split; [reflexivity|].
  assert (V : valid v = true)
    by (vm_compute in H; injection H as <-; reflexivity).
  rewrite (valid_score_formula _ _ H V). vm_compute. reflexivity.
Defined.

(** ** What the entropy estimate sees of a password *)

Lemma re_search_permutation (cls : char -> bool) (p q : str) :
  Permutation p q -> re_search cls p = re_search cls q.
Proof.
  intros P. apply eq_true_iff_eq. rewrite !re_search_true.
  split; intros (c & Hc & E); exists c; split; try assumption.
  - exact (Permutation_in _ P Hc).
  - exact (Permutation_in _ (Permutation_sym P) Hc).
Qed.

(** X15.  The entropy estimate does not depend on the order of the
    characters: two passwords made of the same characters get the same
    estimate. *)
Theorem calculate_entropy_permutation (p q : str) :
  Permutation p q -> calculate_entropy p = calculate_entropy q.
Proof.
  intros P. unfold calculate_entropy, charset_size, len.
  rewrite !(re_search_permutation _ P), (Permutation_length P).
  reflexivity.
Qed.

Lemma calculate_entropy_permutation_witness :
  calculate_entropy (lit "aaaaBBBB1111") = calculate_entropy (lit "1111BBBBaaaa").
Proof.
  apply calculate_entropy_permutation.
  exact (Permutation_rev (lit "aaaaBBBB1111")).
Defined.

Lemma re_search_app (cls : char -> bool) (p q : str) :
  re_search cls (p ++ q) = re_search cls p || re_search cls q.
Proof. apply existsb_app. Qed.

Lemma charset_size_app (p q : str) :
  charset_size p <= charset_size (p ++ q).
Proof.
  rewrite !charset_size_sum, !re_search_app.
  destruct (re_search re_lower p), (re_search re_upper p),
    (re_search re_digit p), (re_search re_special p),
    (re_search re_lower q), (re_search re_upper q),
    (re_search re_digit q), (re_search re_special q); simpl; lia.
Qed.

Lemma Rlog2_nonneg (c : Z) : 1 <= c -> (0 <= Rlog 2 (IZR c))%R.
Proof.
  intros Hc. unfold Rlog. pose proof ln_2_pos as L.
  apply Rmult_le_pos; [|left; now apply Rinv_0_lt_compat].
  destruct (Z.eq_dec c 1) as [-> | N]; [rewrite ln_1; lra|].
  left. rewrite <- ln_1. apply ln_increasing; [lra | apply IZR_lt; lia].
Qed.

Lemma Rlog2_le (c d : Z) :
  1 <= c <= d -> (Rlog 2 (IZR c) <= Rlog 2 (IZR d))%R.
Proof.
  intros [Hc Hd]. unfold Rlog. pose proof ln_2_pos as L.
  apply Rmult_le_compat_r; [left; now apply Rinv_0_lt_compat|].
  destruct (Z.eq_dec c d) as [-> | N]; [lra|].
  left. apply ln_increasing; apply IZR_lt; lia.
Qed.

Lemma bits_value_nonneg (e : bits) : bits_wf e -> (0 <= bits_value e)%R.
Proof.
  destruct e as [|n c]; simpl; [lra|]. intros [Hn Hc].
  apply Rmult_le_pos; [now apply IZR_le | now apply Rlog2_nonneg].
Qed.

(** X16.  Appending characters never lowers the entropy estimate; so a
    threshold of rule 15 that the password passes, the longer password
    passes too. *)
Theorem calculate_entropy_app (p q : str) :
  (bits_value (calculate_entropy p)
   <= bits_value (calculate_entropy (p ++ q)))%R
  /\ forall t, 0 <= t ->
       bits_geb (calculate_entropy p) t = true ->
       bits_geb (calculate_entropy (p ++ q)) t = true.
Proof.
  assert (V : (bits_value (calculate_entropy p)
               <= bits_value (calculate_entropy (p ++ q)))%R).
  { pose proof (charset_size_app p q) as C.
    pose proof (charset_size_range p) as R.
    destruct (calculate_entropy_value p) as [Z0 NZ].
    destruct (Z.eq_dec (charset_size p) 0) as [E | E].
    - rewrite (Z0 E). apply bits_value_nonneg, calculate_entropy_wf.
    - rewrite (NZ E).
      destruct (calculate_entropy_value (p ++ q)) as [_ NZ'].
      rewrite NZ' by lia.
      apply Rmult_le_compat.
      + apply IZR_le. unfold len. lia.
      + apply Rlog2_nonneg. lia.
      + apply IZR_le. unfold len. rewrite length_app. lia.
      + apply Rlog2_le. lia. }
  split; [exact V|].
  intros t Ht G.
  apply (calculate_entropy_tests p Ht) in G.
  apply (calculate_entropy_tests (p ++ q) Ht). lra.
Qed.

Lemma calculate_entropy_app_witness :
  bits_geb (calculate_entropy (lit "Abcdefgh1!" ++ lit "xy")) 60 = true.
Proof.
  apply (proj2 (calculate_entropy_app (lit "Abcdefgh1!") (lit "xy")) 60);
    [lia | vm_compute; reflexivity].
Defined.

(** ** The list of keyboard walks *)

Lemma substring_trans (a b s : str) :
  substring a b -> substring b s -> substring a s.
Proof.
  intros (p1 & q1 & ->) (p2 & q2 & ->).
  exists (p2 ++ p1), (q1 ++ q2). now rewrite <- !app_assoc.
Qed.

(** Every walk of the list contains a short walk, or the reverse of one,
    and so does its own reverse. *)
Lemma walks_covered (w : str) :
  In w (KEYBOARD_WALKS module_init) ->
  exists w', In w' short_walks
    /\ ((substring w' w /\ substring (rev w') (rev w))
        \/ (substring (rev w') w /\ substring w' (rev w))).
Proof.
  assert (C : forallb (fun w =>
                existsb (fun w' =>
                  (contains w' w && contains (rev w') (rev w))
                  || (contains (rev w') w && contains w' (rev w)))
                  short_walks)
                (KEYBOARD_WALKS module_init) = true)
    by (vm_compute; reflexivity).
  rewrite forallb_forall in C. intros Hw. specialize (C w Hw).
  apply existsb_exists in C as (w' & Hw' & E). exists w'.
  split; [assumption|].
  rewrite orb_true_iff, !andb_true_iff, !contains_substring in E. exact E.
Qed.

Lemma short_walks_incl : incl short_walks (KEYBOARD_WALKS module_init).
Proof.
  intros w Hw. vm_compute in Hw. vm_compute.
  repeat (destruct Hw as [<- | Hw]; [tauto|]). contradiction.
Qed.

(** X17.  Five of the twelve keyboard walks are never needed: on every
    string the loop of rule 11 finds a match in the whole list exactly when
    it finds one among qwerty, asdfgh, zxcvbn, 1234567, abcdefg, aaaaaaa and
    1111111. *)
Theorem keyboard_walks_redundant (s : str) :
  walk_match (KEYBOARD_WALKS module_init) s = walk_match short_walks s.
Proof.
  apply eq_true_iff_eq. rewrite !walk_match_occurs. unfold walk_occurs. split.
  - intros (w & Hw & H).
    destruct (walks_covered Hw) as (w' & Hw' & [[A B] | [A B]]);
      exists w'; (split; [assumption|]); destruct H as [H | H];
      eauto using substring_trans.
  - intros (w & Hw & H). exists w. split; [|assumption].
    now apply short_walks_incl.
Qed.

(** ** The route *)

Lemma dict_get_absent (d : list (str * json)) (key : str) (default : json) :
  (forall k x, In (k, x) d -> k <> key) -> dict_get d key default = default.
Proof.
  induction d as [|[k x] d IH]; intros H; simpl; [reflexivity|].
  destruct (str_eqb k key) eqn:E.
  - apply str_eqb_eq in E. exfalso. apply (H k x); [now left | assumption].
  - apply IH. intros k' x' Hin. apply (H k' x'). now right.
Qed.

(** X18.  A request whose JSON object has no member named password is
    answered with the IndexError of rule 12: the default of the lookup is
    the empty string, on which [validate_password] fails. *)
Theorem validate_missing_password (lower : str -> str)
    (d : list (str * json)) :
  (forall k x, In (k, x) d -> k <> lit "password") ->
  validate lower (JObject d) = Unhandled (FromEngine IndexError).
Proof.
  intros H. unfold validate. rewrite (dict_get_absent _ _ H).
  reflexivity.
Qed.

Lemma validate_missing_password_witness :
  validate ascii_lower (JObject [(lit "pass", JString (lit "Tr0ub4dor&3XyZ"))])
  = Unhandled (FromEngine IndexError).
Proof.
  apply validate_missing_password.
  intros k x [E | []]. inversion E; subst. discriminate.
Defined.

(** X19.  The route answers with a verdict exactly when the body is a JSON
    object whose member password is a non-empty string; the verdict is then
    the one of [validate_password] for that string.  Every other body ends
    in an exception. *)
Theorem validate_replies_iff (lower : str -> str) (data : json) (v : Verdict) :
  validate lower data = Jsonify v
  <-> exists d s,
        data = JObject d
        /\ dict_get d (lit "password") (JString empty) = JString s
        /\ s <> []
        /\ validate_password lower s = Ok v.
Proof.
  split.
  - destruct data as [| | | | |l|d]; try discriminate.
    unfold validate, validate_password_value.
    destruct (dict_get d (lit "password") (JString empty))
      as [| | | |s| |] eqn:G; try discriminate.
    destruct (validate_password lower s) as [v'|e] eqn:E; [|discriminate].
    intros R. inversion R; subst v'. exists d, s.
    repeat split; try assumption.
    apply (validate_Ok_inv _ _ _ E).
  - intros (d & s & -> & G & _ & E).
    unfold validate, validate_password_value. now rewrite G, E.
Qed.

Lemma validate_replies_iff_witness :
  exists v,
    validate ascii_lower
      (JObject [(lit "user", JNull);
                (lit "password", JString (lit "Tr0ub4dor&3XyZ"))])
    = Jsonify v
    /\ valid v = true.
Proof.
  pose (v := {| valid := true; score := 80; strength := Strong;
                entropy := Log2 14 94; errors := [];
                warnings := [WarnSequential] |}).
  exists v. split; [|reflexivity].
  apply (proj2 (validate_replies_iff ascii_lower _ v)).
  eexists _, (lit "Tr0ub4dor&3XyZ").
  split; [reflexivity|]. split; [reflexivity|].
  split; [discriminate | vm_compute; reflexivity].
Defined.

(** ** Repeated calls *)

Lemma deref_app_old (h t : heap) (r : nat) :
  (r < length h)%nat -> deref (h ++ t) r = deref h r.
Proof. intros H. unfold deref. now apply app_nth1. Qed.

Lemma deref_app_first (h : heap) (a : list item) (t : heap) :
  deref (h ++ a :: t) (length h) = a.
Proof. unfold deref. apply nth_middle. Qed.

Lemma deref_app_second (h : heap) (a b : list item) (t : heap) :
  deref (h ++ a :: b :: t) (S (length h)) = b.
Proof.
  replace (h ++ a :: b :: t) with ((h ++ [a]) ++ b :: t)
    by now rewrite <- app_assoc.
  replace (S (length h)) with (length (h ++ [a]))
    by (rewrite length_app; simpl; lia).
  apply deref_app_first.
Qed.

Lemma update_app_first (h : heap) (a o : list item) (t : heap) :
  update (h ++ a :: t) (length h) o = h ++ o :: t.
Proof. induction h as [|x h IH]; simpl; [reflexivity | now rewrite IH]. Qed.

Lemma update_app_second (h : heap) (a b o : list item) (t : heap) :
  update (h ++ a :: b :: t) (S (length h)) o = h ++ a :: o :: t.
Proof. induction h as [|x h IH]; simpl; [reflexivity | now rewrite IH]. Qed.

Lemma item_str_in_strings (x : str) (C : list str) :
  item_str_in x (map IStr C) = str_in x C.
Proof.
  unfold item_str_in, str_in.
  induction C as [|c C IH]; simpl; [reflexivity | now rewrite IH].
Qed.

Lemma errors_of_errors (l : list error) : errors_of (map IError l) = l.
Proof. induction l as [|e l IH]; simpl; [reflexivity | now rewrite IH]. Qed.

Lemma warnings_of_warnings (l : list warning) :
  warnings_of (map IWarning l) = l.
Proof. induction l as [|x l IH]; simpl; [reflexivity | now rewrite IH]. Qed.

Section HeapRefinement.

Variable lower : str -> str.
Variable m : module_state.
Variable w0 : world.
Hypothesis module_there : module_at w0 m.

(** The addresses of the two lists of the call. *)
Let errors_ref := length (objects w0).
Let warnings_ref := S (length (objects w0)).

Lemma module_at_world_with (st : state) : module_at (world_with w0 st) m.
Proof.
  destruct module_there as (HC & HK & EC & EK).
  unfold module_at, world_with; cbn [objects COMMON_PASSWORDS_ref
                                     KEYBOARD_WALKS_ref].
  rewrite length_app, !deref_app_old by assumption.
  repeat split; try assumption; lia.
Qed.

Lemma append_error_run (e : error) (st : state) :
  list_append errors_ref (IError e) (world_with w0 st)
  = (Returns tt, world_with w0 (errors_append e st)).
Proof.
  unfold list_append, world_with, errors_ref;
    cbn [objects COMMON_PASSWORDS_ref KEYBOARD_WALKS_ref errors_append
         st_errors st_warnings].
  rewrite deref_app_first, update_app_first, map_app. reflexivity.
Qed.

Lemma append_warning_run (x : warning) (st : state) :
  list_append warnings_ref (IWarning x) (world_with w0 st)
  = (Returns tt, world_with w0 (warnings_append x st)).
Proof.
  unfold list_append, world_with, warnings_ref;
    cbn [objects COMMON_PASSWORDS_ref KEYBOARD_WALKS_ref warnings_append
         st_errors st_warnings].
  rewrite deref_app_second, update_app_second, map_app. reflexivity.
Qed.

Lemma read_errors_run (st : state) :
  list_read errors_ref (world_with w0 st)
  = (Returns (map IError (st_errors st)), world_with w0 st).
Proof.
  unfold list_read, world_with, errors_ref; cbn [objects].
  now rewrite deref_app_first.
Qed.

Lemma read_common_run (st : state) :
  list_read (COMMON_PASSWORDS_ref w0) (world_with w0 st)
  = (Returns (map IStr (COMMON_PASSWORDS m)), world_with w0 st).
Proof.
  destruct module_there as (HC & HK & EC & EK).
  unfold list_read, world_with; cbn [objects].
  now rewrite deref_app_old, EC by assumption.
Qed.

Lemma read_walks_run (st : state) :
  list_read (KEYBOARD_WALKS_ref w0) (world_with w0 st)
  = (Returns (map IStr (KEYBOARD_WALKS m)), world_with w0 st).
Proof.
  destruct module_there as (HC & HK & EC & EK).
  unfold list_read, world_with; cbn [objects].
  now rewrite deref_app_old, EK by assumption.
Qed.

(** Each rule on the heap does to the two list objects and to the score
    what the rule does to [errors], [warnings] and [score], and touches
    nothing else. *)
Ltac rule_on_heap :=
  intros;
  cbv beta delta [rule1_st rule2_st rule3_st rule4_st rule5_st rule6_st
                  rule7_st rule9_st rule10_st rule13_st rule14_st rule15_st
                  rule1 rule2 rule3 rule4 rule5 rule6 rule7 rule9 rule10
                  rule13 rule14 rule15 bindM ret];
  repeat match goal with
         | |- context [if ?b then _ else _] => destruct b
         end;
  rewrite ?append_error_run, ?append_warning_run; reflexivity.

Lemma rule1_on_heap p st :
  rule1_st p errors_ref (st_score st) (world_with w0 st)
  = (Returns (st_score (rule1 p st)), world_with w0 (rule1 p st)).
Proof. rule_on_heap. Qed.

Lemma rule2_on_heap p st :
  rule2_st p errors_ref (st_score st) (world_with w0 st)
  = (Returns (st_score (rule2 p st)), world_with w0 (rule2 p st)).
Proof. rule_on_heap. Qed.

Lemma rule3_on_heap p st :
  rule3_st p errors_ref (st_score st) (world_with w0 st)
  = (Returns (st_score (rule3 p st)), world_with w0 (rule3 p st)).
Proof. rule_on_heap. Qed.

Lemma rule4_on_heap p st :
  rule4_st p errors_ref (st_score st) (world_with w0 st)
  = (Returns (st_score (rule4 p st)), world_with w0 (rule4 p st)).
Proof. rule_on_heap. Qed.

Lemma rule5_on_heap p st :
  rule5_st p errors_ref (st_score st) (world_with w0 st)
  = (Returns (st_score (rule5 p st)), world_with w0 (rule5 p st)).
Proof. rule_on_heap. Qed.

Lemma rule6_on_heap p st :
  rule6_st p errors_ref (st_score st) (world_with w0 st)
  = (Returns (st_score (rule6 p st)), world_with w0 (rule6 p st)).
Proof. rule_on_heap. Qed.

Lemma rule7_on_heap p st :
  rule7_st p (st_score st) (world_with w0 st)
  = (Returns (st_score (rule7 p st)), world_with w0 (rule7 p st)).
Proof. rule_on_heap. Qed.

Lemma rule8_on_heap p st :
  rule8_st lower p errors_ref (st_score st) (world_with w0 st)
  = (Returns (st_score (rule8 lower m p st)),
     world_with w0 (rule8 lower m p st)).
Proof.
  unfold rule8_st, rule8, bindM, global_COMMON_PASSWORDS.
  cbn [COMMON_PASSWORDS_ref world_with].
  fold (world_with w0 st). rewrite read_common_run, item_str_in_strings.
  destruct (str_in _ _); [rewrite append_error_run|]; reflexivity.
Qed.

Lemma rule9_on_heap p st :
  rule9_st p errors_ref (st_score st) (world_with w0 st)
  = (Returns (st_score (rule9 p st)), world_with w0 (rule9 p st)).
Proof. rule_on_heap. Qed.

Lemma rule10_on_heap p st :
  rule10_st lower p warnings_ref (st_score st) (world_with w0 st)
  = (Returns (st_score (rule10 lower p st)),
     world_with w0 (rule10 lower p st)).
Proof. rule_on_heap. Qed.

Lemma walk_loop_on_heap walks p_lower st :
  walk_loop_st (map IStr walks) p_lower warnings_ref (st_score st)
    (world_with w0 st)
  = (Returns (st_score (walk_loop walks p_lower st)),
     world_with w0 (walk_loop walks p_lower st)).
Proof.
  induction walks as [|walk rest IH]; [reflexivity|].
  cbn [map walk_loop_st walk_loop].
  destruct (contains walk p_lower || contains (rev walk) p_lower);
    [|exact IH].
  unfold bindM. rewrite append_warning_run. reflexivity.
Qed.

Lemma rule11_on_heap p st :
  rule11_st lower p warnings_ref (st_score st) (world_with w0 st)
  = (Returns (st_score (rule11 lower m p st)),
     world_with w0 (rule11 lower m p st)).
Proof.
  unfold rule11_st, rule11, bindM, global_KEYBOARD_WALKS.
  cbn [KEYBOARD_WALKS_ref world_with].
  fold (world_with w0 st). rewrite read_walks_run.
  apply walk_loop_on_heap.
Qed.

Lemma rule12_on_heap p st :
  rule12_st p warnings_ref (world_with w0 st)
  = match rule12 p st with
    | Ok st' => (Returns tt, world_with w0 st')
    | Raise e => (Raises (FromEngine e), world_with w0 st)
    end.
Proof.
  unfold rule12_st, rule12, bindM, bind, lift, ret.
  destruct (getitem p 0) as [first|e]; [|reflexivity].
  destruct (isdigit first).
  - now rewrite append_warning_run.
  - destruct (getitem p (-1)) as [last|e]; [|reflexivity].
    destruct (isdigit last); [now rewrite append_warning_run | reflexivity].
Qed.

Lemma rule13_on_heap p st :
  rule13_st p errors_ref (world_with w0 st)
  = (Returns tt, world_with w0 (rule13 p st)).
Proof. rule_on_heap. Qed.

Lemma rule14_on_heap p st :
  rule14_st p errors_ref (world_with w0 st)
  = (Returns tt, world_with w0 (rule14 p st)).
Proof. rule_on_heap. Qed.

Lemma rule15_on_heap e st :
  rule15_st e errors_ref (st_score st) (world_with w0 st)
  = (Returns (st_score (rule15 e st)), world_with w0 (rule15 e st)).
Proof. rule_on_heap. Qed.

Lemma rule12_Ok_score (p : str) (st st' : state) :
  rule12 p st = Ok st' -> st_score st' = st_score st.
Proof.
  destruct p as [|c p]; [rewrite rule12_nil; discriminate|].
  rewrite rule12_nonempty by discriminate.
  intros E. inversion E. now destruct (edge_digit (c :: p)).
Qed.

Lemma truthy_map {A B} (f : A -> B) (l : list A) :
  truthy (map f l) = truthy l.
Proof. now destruct l. Qed.

Lemma finish_on_heap e st :
  finish_st e errors_ref warnings_ref (st_score st) (world_with w0 st)
  = (Returns (dict_at w0 e st), world_with w0 st).
Proof.
  unfold finish_st, bindM, ret. rewrite read_errors_run.
  cbv beta iota zeta. rewrite read_errors_run.
  unfold dict_at, strength_of. now rewrite truthy_map, length_map.
Qed.

Lemma alloc_lists_run :
  new_list w0 = (Returns errors_ref,
                 {| objects := objects w0 ++ [[]];
                    COMMON_PASSWORDS_ref := COMMON_PASSWORDS_ref w0;
                    KEYBOARD_WALKS_ref := KEYBOARD_WALKS_ref w0 |})
  /\ new_list {| objects := objects w0 ++ [[]];
                 COMMON_PASSWORDS_ref := COMMON_PASSWORDS_ref w0;
                 KEYBOARD_WALKS_ref := KEYBOARD_WALKS_ref w0 |}
     = (Returns warnings_ref, world_with w0 init_state).
Proof.
  split; [reflexivity|].
  unfold new_list, world_with, warnings_ref;
    cbn [objects COMMON_PASSWORDS_ref KEYBOARD_WALKS_ref init_state
         st_errors st_warnings map].
  rewrite length_app, <- app_assoc, Nat.add_1_r. reflexivity.
Qed.

(** The whole call on the heap: the outcome of the call on values, the two
    new lists after the objects that were there, and these unchanged. *)
Lemma validate_password_st_run (p : str) :
  validate_password_st lower p w0
  = match rule12 p (rules_1_11 lower m p) with
    | Raise e =>
        (Raises (FromEngine e), world_with w0 (rules_1_11 lower m p))
    | Ok st12 =>
        let e := calculate_entropy p in
        let st := rule15 e (rule14 p (rule13 p st12)) in
        (Returns (dict_at w0 e st), world_with w0 st)
    end.
Proof.
  destruct alloc_lists_run as [A1 A2].
  unfold validate_password_st, bindM. rewrite A1, A2.
  change (rule1_st p errors_ref 0)
    with (rule1_st p errors_ref (st_score init_state)).
  rewrite rule1_on_heap, rule2_on_heap, rule3_on_heap, rule4_on_heap,
    rule5_on_heap, rule6_on_heap, rule7_on_heap, rule8_on_heap,
    rule9_on_heap, rule10_on_heap, rule11_on_heap, rule12_on_heap.
  change (rule11 lower m p _) with (rules_1_11 lower m p).
  destruct (rule12 p (rules_1_11 lower m p)) as [st12|e] eqn:R;
    [|reflexivity].
  rewrite rule13_on_heap, rule14_on_heap. cbv zeta.
  replace (st_score (rules_1_11 lower m p))
    with (st_score (rule14 p (rule13 p st12)))
    by (rewrite rule14_score, rule13_score; exact (rule12_Ok_score _ _ R)).
  rewrite rule15_on_heap, finish_on_heap. reflexivity.
Qed.

End HeapRefinement.

Lemma read_own_dict (w0 : world) (e : bits) (st : state) :
  read_verdict (world_with w0 st) (dict_at w0 e st) = verdict_of e (clamp st).
Proof.
  unfold read_verdict, dict_at, verdict_of, world_with;
    cbn [objects d_valid d_score d_strength d_entropy d_errors d_warnings
         clamp set_score st_errors st_warnings st_score].
  now rewrite deref_app_first, deref_app_second, errors_of_errors,
    warnings_of_warnings.
Qed.

(** The dictionary of an earlier call, read after a later call has added
    its own two lists. *)
Lemma read_earlier_dict (w0 : world) (e : bits) (st st' : state) :
  read_verdict (world_with (world_with w0 st) st') (dict_at w0 e st)
  = verdict_of e (clamp st).
Proof.
  unfold read_verdict, dict_at, verdict_of, world_with;
    cbn [objects d_valid d_score d_strength d_entropy d_errors d_warnings
         clamp set_score st_errors st_warnings st_score].
  rewrite (@deref_app_old (objects w0 ++ [_; _]) [_; _]
             (length (objects w0)))
    by (rewrite length_app; simpl; lia).
  rewrite (@deref_app_old (objects w0 ++ [_; _]) [_; _]
             (S (length (objects w0))))
    by (rewrite length_app; simpl; lia).
  now rewrite deref_app_first, deref_app_second, errors_of_errors,
    warnings_of_warnings.
Qed.

Lemma world_with_frame (w0 : world) (st : state) (a : nat) :
  (a < length (objects w0))%nat ->
  deref (objects (world_with w0 st)) a = deref (objects w0) a.
Proof. intros H. now apply deref_app_old. Qed.

(** C9.  Two calls on the same password, the second in the world the first
    has left.  Each call creates its own two lists and appends to these
    only: the objects that were there before, the blacklist and the
    keyboard walks among them, are the same after both calls.  Both calls
    end alike, with the verdict of the password (the same valid, score,
    strength, entropy, errors and warnings) or with the same exception;
    the record of the first call still reads the same after the second,
    and the four lists of the two dictionaries are four different
    objects. *)
Theorem validate_password_stateless (lower : str -> str) (m : module_state)
    (w : world) (p : str) :
  module_at w m ->
  let (r1, w1) := validate_password_st lower p w in
  let (r2, w2) := validate_password_st lower p w1 in
  module_at w1 m /\ module_at w2 m
  /\ (forall a, (a < length (objects w))%nat ->
                deref (objects w2) a = deref (objects w) a)
  /\ seen w1 r1 = outcome_of (validate_password_in lower m p)
  /\ seen w2 r2 = seen w1 r1
  /\ seen w2 r1 = seen w1 r1
  /\ (forall d1 d2, r1 = Returns d1 -> r2 = Returns d2 ->
        NoDup [d_errors d1; d_warnings d1; d_errors d2; d_warnings d2]).
Proof.
  intros Hm. rewrite (validate_password_st_run lower Hm p).
  unfold validate_password_in.
  destruct (rule12 p (rules_1_11 lower m p)) as [st12|e] eqn:R.
  - cbv zeta. set (e := calculate_entropy p).
    set (st := rule15 e (rule14 p (rule13 p st12))).
    pose proof (module_at_world_with Hm st) as Hm1.
    rewrite (validate_password_st_run lower Hm1 p), R. cbv zeta.
    fold e. fold st.
    pose proof (module_at_world_with Hm1 st) as Hm2.
    split; [exact Hm1|]. split; [exact Hm2|]. split.
    { intros a Ha. rewrite world_with_frame, world_with_frame;
        [reflexivity | assumption |].
      unfold world_with; cbn [objects]. rewrite length_app. lia. }
    cbn [seen bind outcome_of].
    rewrite !read_own_dict, read_earlier_dict.
    repeat split.
    intros d1 d2 E1 E2. inversion E1; inversion E2; subst d1 d2.
    unfold dict_at, world_with;
      cbn [d_errors d_warnings objects]. rewrite length_app. cbn [length].
    set (n := length (objects w)).
    repeat constructor; simpl; lia.
  - pose proof (module_at_world_with Hm (rules_1_11 lower m p)) as Hm1.
    rewrite (validate_password_st_run lower Hm1 p), R.
    pose proof (module_at_world_with Hm1 (rules_1_11 lower m p)) as Hm2.
    split; [exact Hm1|]. split; [exact Hm2|]. split.
    { intros a Ha. rewrite world_with_frame, world_with_frame;
        [reflexivity | assumption |].
      unfold world_with; cbn [objects]. rewrite length_app. lia. }
    repeat split. intros d1 d2 E1. discriminate E1.
Qed.

Lemma validate_password_stateless_witness :
  module_at world_init module_init
  /\ let (r1, w1) :=
       validate_password_st ascii_lower (lit "Tr0ub4dor&3XyZ") world_init in
     let (r2, w2) :=
       validate_password_st ascii_lower (lit "Tr0ub4dor&3XyZ") w1 in
     seen w2 r2 = seen w1 r1
     /\ seen w1 r1
        = outcome_of (validate_password ascii_lower (lit "Tr0ub4dor&3XyZ")).
Proof.
  assert (Hm : module_at world_init module_init)
    by (unfold module_at; simpl; repeat split; lia).
  split; [exact Hm|].
  pose proof (validate_password_stateless ascii_lower
                (lit "Tr0ub4dor&3XyZ") Hm) as H.
  destruct (validate_password_st ascii_lower (lit "Tr0ub4dor&3XyZ") world_init)
    as [r1 w1].
  destruct (validate_password_st ascii_lower (lit "Tr0ub4dor&3XyZ") w1)
    as [r2 w2].
  destruct H as (_ & _ & _ & H1 & H2 & _).
  split; [exact H2 | exact H1].
Defined.

(** The heap after the import and one call: the blacklist, the walks, and
    the two lists of the call. *)
Example run_on_heap :
  let (r, w) := validate_password_st ascii_lower (lit "password") world_init in
  r = Returns {| d_valid := false; d_score := 15; d_strength := Weak;
                 d_entropy := Log2 8 26; d_errors := 2; d_warnings := 3 |}
  /\ deref (objects w) 2
     = map IError [ErrMinLength; ErrUppercase; ErrDigit; ErrSpecial;
                   ErrCommon; ErrClasses; ErrEntropy (Log2 8 26)]
  /\ deref (objects w) 3 = []
  /\ deref (objects w) 0 = deref (objects world_init) 0
  /\ deref (objects w) 1 = deref (objects world_init) 1.
Proof. vm_compute. repeat split. Qed.

(** ** Scenarios *)

Example run_troubador :
  validate_password ascii_lower (lit "Tr0ub4dor&3XyZ")
  = Ok {| valid := true; score := 80; strength := Strong;
          entropy := Log2 14 94; errors := [];
          warnings := [WarnSequential] |}.
Proof. vm_compute. reflexivity. Qed.

Example run_password :
  validate_password ascii_lower (lit "password")
  = Ok {| valid := false; score := 15; strength := Weak;
          entropy := Log2 8 26;
          errors := [ErrMinLength; ErrUppercase; ErrDigit; ErrSpecial;
                     ErrCommon; ErrClasses; ErrEntropy (Log2 8 26)];
          warnings := [] |}.
Proof. vm_compute. reflexivity. Qed.

Example run_repeated_run :
  exists v,
    validate_password ascii_lower (lit "Aaaaaaaaaaaa1!") = Ok v
    /\ valid v = false /\ In ErrRepeated (errors v).
Proof. eexists. split; [vm_compute; reflexivity|]. simpl. tauto. Qed.

Example run_length_boundary :
  (exists v,
     validate_password ascii_lower (lit "Ab1!Cd2?Ef3") = Ok v
     /\ In ErrMinLength (errors v))
  /\ (exists v,
        validate_password ascii_lower (lit "Ab1!Cd2?Ef3g") = Ok v
        /\ ~ In ErrMinLength (errors v)).
Proof.
  split; eexists; (split; [vm_compute; reflexivity|]); simpl; [tauto|].
  intros H. repeat (destruct H as [H | H]; [discriminate H|]). exact H.
Qed.

Example run_too_long :
  exists v,
    validate_password ascii_lower
      (lit "Xy7!" ++ concat (repeat (lit "gH5-kQ2+") 15) ++ lit "mNpR9") = Ok v
    /\ In ErrMaxLength (errors v).
Proof. eexists. split; [vm_compute; reflexivity|]. simpl. tauto. Qed.

Example run_reversed_walk :
  exists v,
    validate_password ascii_lower (lit "Xx-YTREWQ-zz") = Ok v
    /\ In WarnKeyboardWalk (warnings v).
Proof. eexists. split; [vm_compute; reflexivity|]. simpl. tauto. Qed.
